(** * Drawing.tsx: the shape store and its undo/redo history

    A shallow embedding of the React component [DrawingApp] of
    [src/component/Drawing.tsx].  The component keeps ten [useState] cells;
    every event handler is a closure over the values of the last render and
    queues updates ([setX(v)] or [setX(prev => ...)]) that React applies
    before the next render.  The embedding keeps this shape:

    - JavaScript numbers are IEEE-754 binary64 values, that is, Rocq's
      primitive [float]s;
    - a shape is a JavaScript object: the fields of [BaseShape] are always
      present, the geometry fields are present or absent ([option]);
    - a handler is a function of the rendered state that returns a queue of
      updates, here a state transformer ([Update]);
    - module [Heap] gives the same handlers over a store of arrays and
      objects with identity, so that the sharing of arrays between the live
      collection and the history stacks is visible. *)

From Stdlib Require Import Floats.
From stdpp Require Import base option list strings.

#[local] Open Scope float_scope.
#[local] Set Warnings "-inexact-float".

(** ** Numbers *)

(** [undefined] coerced to a number by an arithmetic operator is [NaN]. *)
Definition ToNumber (v : option float) : float := default nan v.

Definition is_neg_zero (a : float) : bool := is_zero a && get_sign a.

(** [Math.max(a, b)] of ECMAScript: [NaN] if an argument is [NaN], the larger
    argument otherwise, [+0] being larger than [-0]. *)
Definition Math_max (a b : float) : float :=
  if is_nan a || is_nan b then nan
  else if a <? b then b
  else if b <? a then a
  else if is_neg_zero a then b else a.

(** ** The data model *)

Inductive ShapeType := rectangle | circle | line.

Inductive DashStyle := solid | dashed.

#[global] Instance ShapeType_eq_dec : EqDecision ShapeType.
Proof. solve_decision. Defined.

#[global] Instance DashStyle_eq_dec : EqDecision DashStyle.
Proof. solve_decision. Defined.

(** [{ x: number; y: number }], the pointer position and [lineStart]. *)
Module Point.
Record t := mk { x : float; y : float }.
End Point.

(** [type Shape = RectShape | CircleShape | LineShape], as the object it is at
    run time: [updateShape] spreads an arbitrary [Partial<Shape>] over it, so
    the geometry keys are modelled as present or absent. *)
Module Shape.
Record t := mk {
  id : string;
  type : ShapeType;
  stroke : string;
  strokeWidth : float;
  dash : list float;
  draggable : bool;
  isSelected : bool;
  x : option float;
  y : option float;
  width : option float;
  height : option float;
  radius : option float;
  fill : option string;
  points : option (list float)
}.
End Shape.

(** [Partial<Shape>]: every key optional. *)
Module Partial.
Record t := mk {
  id : option string;
  type : option ShapeType;
  stroke : option string;
  strokeWidth : option float;
  dash : option (list float);
  draggable : option bool;
  isSelected : option bool;
  x : option float;
  y : option float;
  width : option float;
  height : option float;
  radius : option float;
  fill : option string;
  points : option (list float)
}.

(** The object literal [{}]. *)
Definition empty : t :=
  mk None None None None None None None None None None None None None None.
End Partial.

(** A key of the right operand of a spread wins when it is present. *)
Definition override {A} (new old : option A) : option A :=
  match new with Some v => Some v | None => old end.

(** [{ ...shape, ...updatedProps }] *)
Definition spread (shape : Shape.t) (p : Partial.t) : Shape.t :=
  {| Shape.id := default (Shape.id shape) (Partial.id p);
     Shape.type := default (Shape.type shape) (Partial.type p);
     Shape.stroke := default (Shape.stroke shape) (Partial.stroke p);
     Shape.strokeWidth := default (Shape.strokeWidth shape) (Partial.strokeWidth p);
     Shape.dash := default (Shape.dash shape) (Partial.dash p);
     Shape.draggable := default (Shape.draggable shape) (Partial.draggable p);
     Shape.isSelected := default (Shape.isSelected shape) (Partial.isSelected p);
     Shape.x := override (Partial.x p) (Shape.x shape);
     Shape.y := override (Partial.y p) (Shape.y shape);
     Shape.width := override (Partial.width p) (Shape.width shape);
     Shape.height := override (Partial.height p) (Shape.height shape);
     Shape.radius := override (Partial.radius p) (Shape.radius shape);
     Shape.fill := override (Partial.fill p) (Shape.fill shape);
     Shape.points := override (Partial.points p) (Shape.points shape) |}.

(** [{ ...shape, isSelected: b }] *)
Definition with_isSelected (b : bool) (shape : Shape.t) : Shape.t :=
  spread shape
    (Partial.mk None None None None None None (Some b)
                None None None None None None None).

(** ** The component state

    The ten [useState] cells.  The record is parametric in the representation
    [C] of a [Shape[]]: a list of shapes here, a reference into the store in
    module [Heap]. *)
Section State.
Context {C : Type}.

Record AppState := mkState {
  shapes : C;
  selectedId : option string;
  drawingType : ShapeType;
  lineStart : option Point.t;
  strokeColor : string;
  strokeWidth : float;
  dashStyle : DashStyle;
  fillColor : string;
  history : list C;
  redoStack : list C
}.

(** A queue of state updates, applied in order. *)
Definition Update := AppState -> AppState.

Definition skip : Update := fun st => st.
Definition and_then (u v : Update) : Update := fun st => v (u st).

(** The setters, in their functional form [setX(prev => f(prev))]. *)
Definition setShapes_fn (f : C -> C) : Update := fun st =>
  mkState (f (shapes st)) (selectedId st) (drawingType st) (lineStart st)
          (strokeColor st) (strokeWidth st) (dashStyle st) (fillColor st)
          (history st) (redoStack st).
Definition setSelectedId_fn (f : option string -> option string) : Update := fun st =>
  mkState (shapes st) (f (selectedId st)) (drawingType st) (lineStart st)
          (strokeColor st) (strokeWidth st) (dashStyle st) (fillColor st)
          (history st) (redoStack st).
Definition setDrawingType_fn (f : ShapeType -> ShapeType) : Update := fun st =>
  mkState (shapes st) (selectedId st) (f (drawingType st)) (lineStart st)
          (strokeColor st) (strokeWidth st) (dashStyle st) (fillColor st)
          (history st) (redoStack st).
Definition setLineStart_fn (f : option Point.t -> option Point.t) : Update := fun st =>
  mkState (shapes st) (selectedId st) (drawingType st) (f (lineStart st))
          (strokeColor st) (strokeWidth st) (dashStyle st) (fillColor st)
          (history st) (redoStack st).
Definition setStrokeColor_fn (f : string -> string) : Update := fun st =>
  mkState (shapes st) (selectedId st) (drawingType st) (lineStart st)
          (f (strokeColor st)) (strokeWidth st) (dashStyle st) (fillColor st)
          (history st) (redoStack st).
Definition setStrokeWidth_fn (f : float -> float) : Update := fun st =>
  mkState (shapes st) (selectedId st) (drawingType st) (lineStart st)
          (strokeColor st) (f (strokeWidth st)) (dashStyle st) (fillColor st)
          (history st) (redoStack st).
Definition setDashStyle_fn (f : DashStyle -> DashStyle) : Update := fun st =>
  mkState (shapes st) (selectedId st) (drawingType st) (lineStart st)
          (strokeColor st) (strokeWidth st) (f (dashStyle st)) (fillColor st)
          (history st) (redoStack st).
Definition setFillColor_fn (f : string -> string) : Update := fun st =>
  mkState (shapes st) (selectedId st) (drawingType st) (lineStart st)
          (strokeColor st) (strokeWidth st) (dashStyle st) (f (fillColor st))
          (history st) (redoStack st).
Definition setHistory_fn (f : list C -> list C) : Update := fun st =>
  mkState (shapes st) (selectedId st) (drawingType st) (lineStart st)
          (strokeColor st) (strokeWidth st) (dashStyle st) (fillColor st)
          (f (history st)) (redoStack st).
Definition setRedoStack_fn (f : list C -> list C) : Update := fun st =>
  mkState (shapes st) (selectedId st) (drawingType st) (lineStart st)
          (strokeColor st) (strokeWidth st) (dashStyle st) (fillColor st)
          (history st) (f (redoStack st)).

(** The setters, in their value form [setX(v)]. *)
Definition setShapes (v : C) : Update := setShapes_fn (fun _ => v).
Definition setSelectedId (v : option string) : Update := setSelectedId_fn (fun _ => v).
Definition setDrawingType (v : ShapeType) : Update := setDrawingType_fn (fun _ => v).
Definition setLineStart (v : option Point.t) : Update := setLineStart_fn (fun _ => v).
Definition setStrokeColor (v : string) : Update := setStrokeColor_fn (fun _ => v).
Definition setStrokeWidth (v : float) : Update := setStrokeWidth_fn (fun _ => v).
Definition setDashStyle (v : DashStyle) : Update := setDashStyle_fn (fun _ => v).
Definition setFillColor (v : string) : Update := setFillColor_fn (fun _ => v).
Definition setHistory (v : list C) : Update := setHistory_fn (fun _ => v).
Definition setRedoStack (v : list C) : Update := setRedoStack_fn (fun _ => v).

(** A handler closes over the state of the render it was created in. *)
Definition Handler := AppState -> Update.

(** An event runs its handler in the current render and flushes the
    queue. *)
Definition dispatch (h : Handler) (st : AppState) : AppState := h st st.

(** [const pushToHistory = () => { setHistory((prev) => [...prev, shapes]);
    setRedoStack([]); }] *)
Definition pushToHistory : Handler := fun r =>
  and_then (setHistory_fn (fun prev => prev ++ [shapes r])) (setRedoStack []).

(** [arr[arr.length - 1]], [undefined] on the empty array. *)
Definition last_elem {A} (l : list A) : option A := last l.

(** [arr.slice(0, -1)] *)
Definition slice_0_m1 {A} (l : list A) : list A := removelast l.

(** [undoLast]: an array is truthy, also the empty one, so [if (prev)]
    asks whether the history has an entry. *)
Definition undoLast : Handler := fun r =>
  match last_elem (history r) with
  | Some prev =>
      and_then (setRedoStack_fn (fun rs => rs ++ [shapes r]))
     (and_then (setShapes prev)
               (setHistory (slice_0_m1 (history r))))
  | None => skip
  end.

Definition redoLast : Handler := fun r =>
  match last_elem (redoStack r) with
  | Some next =>
      and_then (setHistory_fn (fun h => h ++ [shapes r]))
     (and_then (setShapes next)
               (setRedoStack (slice_0_m1 (redoStack r))))
  | None => skip
  end.
End State.

Arguments AppState : clear implicits.
Arguments Update : clear implicits.
Arguments Handler : clear implicits.

Infix ">>>" := and_then (at level 62, right associativity).

(** ** The handlers of [DrawingApp], over collections as values *)

Abbreviation Collection := (list Shape.t).
Abbreviation State := (AppState Collection).

(** [useState] initial values. *)
Definition initial : State :=
  mkState [] None rectangle None "#000000" 2 solid "#f0f0f0" [] [].

(** [createShape].  [pointer] is what [stage.getPointerPosition()] returns
    ([None] for [null]) and [uuid] what [uuidv4()] returns when it is
    called. *)
Definition createShape (pointer : option Point.t) (uuid : string) : Handler Collection :=
  fun r =>
  match pointer with
  | None => skip
  | Some pointer =>
      let dashArray := if decide (dashStyle r = dashed) then [10; 5] else [] in
      if decide (drawingType r = line) then
        match lineStart r with
        | None => setLineStart (Some pointer)
        | Some lineStart =>
            let id := uuid in
            let newLine :=
              {| Shape.id := id;
                 Shape.type := line;
                 Shape.stroke := strokeColor r;
                 Shape.strokeWidth := strokeWidth r;
                 Shape.dash := dashArray;
                 Shape.draggable := true;
                 Shape.isSelected := false;
                 Shape.x := None; Shape.y := None;
                 Shape.width := None; Shape.height := None;
                 Shape.radius := None; Shape.fill := None;
                 Shape.points :=
                   Some [Point.x lineStart; Point.y lineStart;
                         Point.x pointer; Point.y pointer] |} in
            pushToHistory r >>>
            setShapes_fn (fun prev => prev ++ [newLine]) >>>
            setLineStart None
        end
      else
        let id := uuid in
        let newShape :=
          if decide (drawingType r = rectangle) then
            {| Shape.id := id;
               Shape.type := rectangle;
               Shape.stroke := strokeColor r;
               Shape.strokeWidth := strokeWidth r;
               Shape.dash := dashArray;
               Shape.draggable := true;
               Shape.isSelected := false;
               Shape.x := Some (Point.x pointer);
               Shape.y := Some (Point.y pointer);
               Shape.width := Some 100;
               Shape.height := Some 60;
               Shape.radius := None;
               Shape.fill := Some (fillColor r);
               Shape.points := None |}
          else
            {| Shape.id := id;
               Shape.type := circle;
               Shape.stroke := strokeColor r;
               Shape.strokeWidth := strokeWidth r;
               Shape.dash := dashArray;
               Shape.draggable := true;
               Shape.isSelected := false;
               Shape.x := Some (Point.x pointer);
               Shape.y := Some (Point.y pointer);
               Shape.width := None;
               Shape.height := None;
               Shape.radius := Some 40;
               Shape.fill := Some (fillColor r);
               Shape.points := None |} in
        pushToHistory r >>>
        setShapes_fn (fun prev => prev ++ [newShape]) >>>
        setSelectedId (Some id)
  end.

(** [handleSelect] *)
Definition handleSelect (id : string) : Handler Collection := fun _ =>
  setSelectedId (Some id) >>>
  setShapes_fn (fun prev =>
    map (fun shape => with_isSelected (String.eqb (Shape.id shape) id) shape) prev).

(** [updateShape] *)
Definition updateShape (id : string) (updatedProps : Partial.t) : Handler Collection :=
  fun r =>
  pushToHistory r >>>
  setShapes_fn (fun prev =>
    map (fun shape =>
           if String.eqb (Shape.id shape) id then spread shape updatedProps
           else shape) prev).

(** What a handler reads from the Konva node [e.target] of its event. *)
Module Node.
Record t := mk {
  x : float;
  y : float;
  width : float;
  height : float;
  scaleX : float;
  scaleY : float
}.
End Node.

(** A patch that carries geometry keys only. *)
Definition geometry (x y width height radius : option float)
    (points : option (list float)) : Partial.t :=
  Partial.mk None None None None None None None x y width height radius None points.

(** The handlers that the render attaches to the node of [shape]. *)
Definition Rect_transform_patch (node : Node.t) : Partial.t :=
  let scaleX := Node.scaleX node in
  let scaleY := Node.scaleY node in
  geometry (Some (Node.x node)) (Some (Node.y node))
           (Some (Math_max 5 (Node.width node * scaleX)))
           (Some (Math_max 5 (Node.height node * scaleY)))
           None None.

Definition Rect_onTransformEnd (shape : Shape.t) (node : Node.t) : Handler Collection :=
  updateShape (Shape.id shape) (Rect_transform_patch node).

Definition drag_patch (node : Node.t) : Partial.t :=
  geometry (Some (Node.x node)) (Some (Node.y node)) None None None None.

Definition Rect_onDragEnd (shape : Shape.t) (node : Node.t) : Handler Collection :=
  updateShape (Shape.id shape) (drag_patch node).

Definition Circle_transform_patch (shape : Shape.t) (node : Node.t) : Partial.t :=
  let scale := Node.scaleX node in
  geometry (Some (Node.x node)) (Some (Node.y node)) None None
           (Some (Math_max 5 (ToNumber (Shape.radius shape) * scale)))
           None.

Definition Circle_onTransformEnd (shape : Shape.t) (node : Node.t) : Handler Collection :=
  updateShape (Shape.id shape) (Circle_transform_patch shape node).

Definition Circle_onDragEnd (shape : Shape.t) (node : Node.t) : Handler Collection :=
  updateShape (Shape.id shape) (drag_patch node).

(** An element of an array destructuring pattern: a missing element is
    [undefined], which the arithmetic below turns into [NaN]. *)
Definition elem (i : nat) (points : list float) : float := ToNumber (points !! i).

(** The patch of [Line.onDragEnd].  [const [x1, y1, x2, y2] = shape.points]
    throws a [TypeError] when [shape.points] is [undefined] ([None]); no
    update has been queued at that point. *)
Definition Line_drag_patch (shape : Shape.t) (node : Node.t) : option Partial.t :=
  match Shape.points shape with
  | None => None
  | Some points =>
      let x1 := elem 0 points in
      let y1 := elem 1 points in
      let x2 := elem 2 points in
      let y2 := elem 3 points in
      let dx := Node.x node - x1 in
      let dy := Node.y node - y1 in
      Some (geometry None None None None None
                     (Some [x1 + dx; y1 + dy; x2 + dx; y2 + dy]))
  end.

Definition Line_onDragEnd (shape : Shape.t) (node : Node.t) : Handler Collection :=
  match Line_drag_patch shape node with
  | Some p => updateShape (Shape.id shape) p
  | None => fun _ => skip
  end.

(** ** Events *)

Inductive Event :=
  | MouseDown (pointer : option Point.t) (uuid : string)
  | Click (id : string)
  | UpdateShape (id : string) (updatedProps : Partial.t)
  | Undo
  | Redo
  | ChangeShape (v : ShapeType)
  | ChangeStrokeColor (v : string)
  | ChangeStrokeWidth (v : float)
  | ChangeLineStyle (v : DashStyle)
  | ChangeFillColor (v : string)
  | Save.

Definition handler (e : Event) : Handler Collection :=
  match e with
  | MouseDown pointer uuid => createShape pointer uuid
  | Click id => handleSelect id
  | UpdateShape id p => updateShape id p
  | Undo => undoLast
  | Redo => redoLast
  | ChangeShape v => fun _ => setDrawingType v
  | ChangeStrokeColor v => fun _ => setStrokeColor v
  | ChangeStrokeWidth v => fun _ => setStrokeWidth v
  | ChangeLineStyle v => fun _ => setDashStyle v
  | ChangeFillColor v => fun _ => setFillColor v
  | Save => fun _ => skip
  end.

Definition step (e : Event) (st : State) : State := dispatch (handler e) st.

Definition run (es : list Event) (st : State) : State :=
  foldl (fun st e => step e st) st es.

(** ** A change of representation of the collections *)

Definition map_state {C D} (f : C -> D) (c : AppState C) : AppState D :=
  mkState (f (shapes c)) (selectedId c) (drawingType c) (lineStart c)
          (strokeColor c) (strokeWidth c) (dashStyle c) (fillColor c)
          (map f (history c)) (map f (redoStack c)).

(** ** The shapes that [createShape] builds *)

(** The line that the second click builds. *)
Definition line_from {C} (st : AppState C) (uuid : string) (S P : Point.t) : Shape.t :=
  {| Shape.id := uuid;
     Shape.type := line;
     Shape.stroke := strokeColor st;
     Shape.strokeWidth := strokeWidth st;
     Shape.dash := if decide (dashStyle st = dashed) then [10; 5] else [];
     Shape.draggable := true;
     Shape.isSelected := false;
     Shape.x := None; Shape.y := None;
     Shape.width := None; Shape.height := None;
     Shape.radius := None; Shape.fill := None;
     Shape.points := Some [Point.x S; Point.y S; Point.x P; Point.y P] |}.

Definition rect_at {C} (st : AppState C) (uuid : string) (P : Point.t) : Shape.t :=
  {| Shape.id := uuid;
     Shape.type := rectangle;
     Shape.stroke := strokeColor st;
     Shape.strokeWidth := strokeWidth st;
     Shape.dash := if decide (dashStyle st = dashed) then [10; 5] else [];
     Shape.draggable := true;
     Shape.isSelected := false;
     Shape.x := Some (Point.x P);
     Shape.y := Some (Point.y P);
     Shape.width := Some 100;
     Shape.height := Some 60;
     Shape.radius := None;
     Shape.fill := Some (fillColor st);
     Shape.points := None |}.

Definition circle_at {C} (st : AppState C) (uuid : string) (P : Point.t) : Shape.t :=
  {| Shape.id := uuid;
     Shape.type := circle;
     Shape.stroke := strokeColor st;
     Shape.strokeWidth := strokeWidth st;
     Shape.dash := if decide (dashStyle st = dashed) then [10; 5] else [];
     Shape.draggable := true;
     Shape.isSelected := false;
     Shape.x := Some (Point.x P);
     Shape.y := Some (Point.y P);
     Shape.width := None;
     Shape.height := None;
     Shape.radius := Some 40;
     Shape.fill := Some (fillColor st);
     Shape.points := None |}.

(** ** Observations on collections and events *)

(** The number of shapes whose [isSelected] flag is set. *)
Definition selected_count (c : Collection) : nat :=
  length (List.filter Shape.isSelected c).

Definition ids (c : Collection) : list string := map Shape.id c.

Definition absent {A} (o : option A) : bool :=
  match o with None => true | Some _ => false end.

(** A geometry patch has position, size, radius and points keys only; the
    five gesture handlers pass nothing else to [updateShape]. *)
Definition is_geometry (p : Partial.t) : bool :=
  absent (Partial.id p) && absent (Partial.type p) && absent (Partial.stroke p)
  && absent (Partial.strokeWidth p) && absent (Partial.dash p)
  && absent (Partial.draggable p) && absent (Partial.isSelected p)
  && absent (Partial.fill p).

(** An event changes the collection through the history protocol when it is
    a geometry update, or a placement that adds a shape. *)
Definition mutating (st : State) (e : Event) : Prop :=
  match e with
  | MouseDown _ _ => shapes (step e st) <> shapes st
  | UpdateShape _ _ => True
  | _ => False
  end.

(** The environment of the component: [uuidv4()] never returns the id of a
    shape of the live collection, and [updateShape] is called by the gesture
    handlers, with geometry patches. *)
Definition allowed (st : State) (e : Event) : Prop :=
  match e with
  | MouseDown _ uuid => uuid ∉ ids (shapes st)
  | UpdateShape _ p => is_geometry p = true
  | _ => True
  end.

Inductive reachable : State -> Prop :=
  | reachable_initial : reachable initial
  | reachable_step st e : reachable st -> allowed st e -> reachable (step e st).

(** What the user may do between the two clicks of a line without touching
    the canvas: undo, redo, and a change of the shape kind. *)
Definition between_clicks (e : Event) : bool :=
  match e with
  | Undo | Redo | ChangeShape _ => true
  | _ => false
  end.

(** ** The invariant of the collections *)

(** What every collection of a reachable state satisfies: distinct ids and at
    most one flag. *)
Definition coll_ok (c : Collection) : Prop :=
  NoDup (ids c) /\ selected_count c <= 1.

Definition inv (st : State) : Prop :=
  coll_ok (shapes st) /\ Forall coll_ok (history st) /\ Forall coll_ok (redoStack st).

(** ** The same handlers over a store

    In JavaScript a [Shape[]] is a reference to an array of references to
    objects, and [pushToHistory] pushes the array that is live, not a copy of
    it.  This module keeps that sharing: the cells of the component hold
    locations, and the store maps a location to the array or object found
    there.  [undoLast], [redoLast] and [pushToHistory] are the definitions
    above, at the type of locations: they move references only.  The outer
    arrays [history] and [redoStack] are rebuilt by every update and held by
    nothing else, and the number arrays [dash] and [points] are built by array
    literals and only read; both are kept as values. *)
Module Heap.

Abbreviation loc := nat.

Record store := mkStore {
  objs : list Shape.t;
  arrs : list (list loc)
}.

#[global] Instance Shape_inhabited : Inhabited Shape.t :=
  populate (Shape.mk "" rectangle "" 0 [] false false
              None None None None None None None).

(** The object at a location, and the elements of the array at a location. *)
Definition read_obj (σ : store) (o : loc) : Shape.t := objs σ !!! o.
Definition read_arr (σ : store) (a : loc) : list loc := default [] (arrs σ !! a).

(** The collection that an array reference denotes. *)
Definition deref (σ : store) (a : loc) : Collection :=
  map (read_obj σ) (read_arr σ a).

(** Computations that allocate. *)
Definition M (A : Type) : Type := store -> A * store.

(** An object literal and an array literal: a new location each. *)
Definition alloc_obj (s : Shape.t) : M loc := fun σ =>
  (length (objs σ), mkStore (objs σ ++ [s]) (arrs σ)).
Definition alloc_arr (l : list loc) : M loc := fun σ =>
  (length (arrs σ), mkStore (objs σ) (arrs σ ++ [l])).

(** [[...prev, o]] *)
Definition array_snoc (prev o : loc) : M loc := fun σ =>
  alloc_arr (read_arr σ prev ++ [o]) σ.

(** The elements of [prev.map(shape => ...)]: the callback either builds a
    new object from [shape] ([Some]) or returns [shape] itself ([None]). *)
Fixpoint map_elems (f : Shape.t -> option Shape.t) (l : list loc) : M (list loc) :=
  fun σ =>
  match l with
  | [] => ([], σ)
  | o :: l =>
      let '(o', σ1) :=
        match f (read_obj σ o) with
        | Some s' => alloc_obj s' σ
        | None => (o, σ)
        end in
      let '(l', σ2) := map_elems f l σ1 in
      (o' :: l', σ2)
  end.

(** [prev.map(shape => ...)] *)
Definition array_map (f : Shape.t -> option Shape.t) (prev : loc) : M loc := fun σ =>
  let '(l', σ') := map_elems f (read_arr σ prev) σ in
  alloc_arr l' σ'.

(** The component: its cells and the store they point into. *)
Record HState := mkH {
  sigma : store;
  cells : AppState loc
}.

Definition HUpdate := HState -> HState.
Definition HHandler := HState -> HUpdate.

Definition hseq (u v : HUpdate) : HUpdate := fun h => v (u h).

(** An update of the cells that allocates nothing in the store. *)
Definition lift (u : Update loc) : HUpdate := fun h =>
  mkH (sigma h) (u (cells h)).

(** [setShapes(prev => ...)] with an updater that allocates. *)
Definition setShapes_m (f : loc -> M loc) : HUpdate := fun h =>
  let '(a, σ') := f (shapes (cells h)) (sigma h) in
  mkH σ' (setShapes a (cells h)).

(** An object literal evaluated in the handler. *)
Definition with_obj (s : Shape.t) (k : loc -> HUpdate) : HUpdate := fun h =>
  let '(o, σ') := alloc_obj s (sigma h) in
  k o (mkH σ' (cells h)).

Definition hdispatch (hd : HHandler) (h : HState) : HState := hd h h.

Definition createShape (pointer : option Point.t) (uuid : string) : HHandler :=
  fun r =>
  match pointer with
  | None => lift skip
  | Some pointer =>
      if decide (drawingType (cells r) = line) then
        match lineStart (cells r) with
        | None => lift (setLineStart (Some pointer))
        | Some lineStart =>
            with_obj (line_from (cells r) uuid lineStart pointer) (fun newLine =>
              hseq (lift (pushToHistory (cells r)))
             (hseq (setShapes_m (fun prev => array_snoc prev newLine))
                   (lift (setLineStart None))))
        end
      else
        with_obj (if decide (drawingType (cells r) = rectangle)
                  then rect_at (cells r) uuid pointer
                  else circle_at (cells r) uuid pointer) (fun newShape =>
          hseq (lift (pushToHistory (cells r)))
         (hseq (setShapes_m (fun prev => array_snoc prev newShape))
               (lift (setSelectedId (Some uuid)))))
  end.

Definition handleSelect (id : string) : HHandler := fun _ =>
  hseq (lift (setSelectedId (Some id)))
       (setShapes_m (array_map (fun shape =>
          Some (with_isSelected (String.eqb (Shape.id shape) id) shape)))).

Definition updateShape (id : string) (updatedProps : Partial.t) : HHandler := fun r =>
  hseq (lift (pushToHistory (cells r)))
       (setShapes_m (array_map (fun shape =>
          if String.eqb (Shape.id shape) id then Some (spread shape updatedProps)
          else None))).

(** The handler of an event.  [undoLast] and [redoLast] build two new stack
    arrays each ([[...r, shapes]], [history.slice(0, -1)]); the stacks being
    kept as values, these are not allocations of the store, which holds the
    collection arrays and the shape objects only. *)
Definition hhandler (e : Event) : HHandler :=
  match e with
  | MouseDown pointer uuid => createShape pointer uuid
  | Click id => handleSelect id
  | UpdateShape id p => updateShape id p
  | Undo => fun r => lift (undoLast (cells r))
  | Redo => fun r => lift (redoLast (cells r))
  | ChangeShape v => fun _ => lift (setDrawingType v)
  | ChangeStrokeColor v => fun _ => lift (setStrokeColor v)
  | ChangeStrokeWidth v => fun _ => lift (setStrokeWidth v)
  | ChangeLineStyle v => fun _ => lift (setDashStyle v)
  | ChangeFillColor v => fun _ => lift (setFillColor v)
  | Save => fun _ => lift skip
  end.

Definition hstep (e : Event) (h : HState) : HState := hdispatch (hhandler e) h.

Definition hrun (es : list Event) (h : HState) : HState :=
  foldl (fun h e => hstep e h) h es.

(** [useState<Shape[]>([])]: one empty array, no object. *)
Definition hinitial : HState :=
  mkH (mkStore [] [[]])
      (mkState 0%nat None rectangle None "#000000" 2 solid "#f0f0f0" [] []).

(** The tail of [createShape]: the new object, the snapshot, the new array. *)
Definition push_snoc (s : Shape.t) (h : HState) : HState :=
  with_obj s (fun o =>
    hseq (lift (pushToHistory (cells h)))
         (setShapes_m (fun prev => array_snoc prev o))) h.

(** The state that a store state denotes. *)
Definition abs (h : HState) : State := map_state (deref (sigma h)) (cells h).

(** An array reference is valid when it and its elements are allocated. *)
Definition arr_ok (σ : store) (a : loc) : Prop :=
  exists l, arrs σ !! a = Some l /\ Forall (fun o => (o < length (objs σ))%nat) l.

Definition wf (h : HState) : Prop :=
  arr_ok (sigma h) (shapes (cells h)) /\
  Forall (arr_ok (sigma h)) (history (cells h)) /\
  Forall (arr_ok (sigma h)) (redoStack (cells h)).

(** The store [σ'] extends [σ]: every location of [σ] holds in [σ'] what it
    holds in [σ]. *)
Definition extends (σ σ' : store) : Prop :=
  objs σ `prefix_of` objs σ' /\ arrs σ `prefix_of` arrs σ'.

(** The events that edit the collection without going back in history. *)
Definition is_edit (e : Event) : bool :=
  match e with
  | Undo | Redo => false
  | _ => true
  end.

End Heap.

(** ** Concrete states and events used below *)

Definition after_create_undo : State :=
  run [MouseDown (Some (Point.mk 10 10)) "a"; Undo] initial.

Definition after_create : State :=
  run [MouseDown (Some (Point.mk 10 10)) "a"] initial.

Definition one_undone : State :=
  run [MouseDown (Some (Point.mk 10 10)) "a";
       MouseDown (Some (Point.mk 20 20)) "b"; Undo] initial.

Definition line_tool : State := run [ChangeShape line] initial.




Definition line_01_03 : Shape.t :=
  line_from initial "l" (Point.mk 0.1 0) (Point.mk 0.3 0).

Definition drag_to_02 : Node.t := Node.mk 0.2 0 0 0 1 1.

Definition line_0_50 : Shape.t :=
  line_from initial "l" (Point.mk 0 0) (Point.mk 50 50).

(** The render that shows the rectangle ["zz"], and a later state in which
    ["zz"] has been undone and ["a"] placed and selected. *)
Definition zz_render : State :=
  run [MouseDown (Some (Point.mk 10 10)) "zz"] initial.

Definition zz_gone : State :=
  run [MouseDown (Some (Point.mk 10 10)) "zz"; Undo;
       MouseDown (Some (Point.mk 20 20)) "a"; Click "a"] initial.

Definition two_then_select : State :=
  run [MouseDown (Some (Point.mk 10 10)) "a";
       MouseDown (Some (Point.mk 20 20)) "b"; Click "a"; Click "b"] initial.

Definition pending_0_0 : State :=
  run [ChangeShape line; MouseDown (Some (Point.mk 0 0)) "l0"] initial.

Definition one_rect : Heap.HState :=
  Heap.hrun [MouseDown (Some (Point.mk 10 10)) "a"] Heap.hinitial.

Definition drag_a : Event :=
  UpdateShape "a" (drag_patch (Node.mk 30 40 100 60 1 1)).

Definition later_edits : list Event :=
  [Click "a"; MouseDown (Some (Point.mk 5 5)) "b"].

(** ** The rest of the component *)

(** The collections that undo and redo move along, oldest first: the undo
    stack, the live collection, and the redo stack from its top. *)
Definition timeline {C} (st : AppState C) : list C :=
  history st ++ [shapes st] ++ rev (redoStack st).

Definition is_undo_redo (e : Event) : bool :=
  match e with
  | Undo | Redo => true
  | _ => false
  end.

(** The events of the control panel other than undo and redo. *)
Definition is_config (e : Event) : bool :=
  match e with
  | ChangeShape _ | ChangeStrokeColor _ | ChangeStrokeWidth _
  | ChangeLineStyle _ | ChangeFillColor _ | Save => true
  | _ => false
  end.

(** The keys of a shape that a geometry patch leaves alone. *)
Definition non_geometry (s : Shape.t) :=
  (Shape.id s, Shape.type s, Shape.stroke s, Shape.strokeWidth s, Shape.dash s,
   Shape.draggable s, Shape.isSelected s, Shape.fill s).

Definition present {A} (o : option A) : bool := negb (absent o).

(** Every geometry key of [p] is also a key of [q]. *)
Definition geometry_keys_within (p q : Partial.t) : bool :=
  implb (present (Partial.x p)) (present (Partial.x q))
  && implb (present (Partial.y p)) (present (Partial.y q))
  && implb (present (Partial.width p)) (present (Partial.width q))
  && implb (present (Partial.height p)) (present (Partial.height q))
  && implb (present (Partial.radius p)) (present (Partial.radius q))
  && implb (present (Partial.points p)) (present (Partial.points q)).

(** The box that Konva's [Transformer] passes to [boundBoxFunc]. *)
Module Box.
Record t := mk {
  x : float;
  y : float;
  width : float;
  height : float;
  rotation : float
}.
End Box.

(** [boundBoxFunc={(oldBox, newBox) => { if (newBox.width < 5 ||
    newBox.height < 5) return oldBox; return newBox; }}] *)
Definition boundBoxFunc (oldBox newBox : Box.t) : Box.t :=
  if (Box.width newBox <? 5) || (Box.height newBox <? 5) then oldBox
  else newBox.

(** No side of the box is below 5. *)
Definition box_ok (b : Box.t) : bool :=
  negb (Box.width b <? 5) && negb (Box.height b <? 5).

(** *** The render: one Konva element per shape *)

Inductive Tag := Rect | Circle | Line.

(** What the JSX of a shape fixes: the component, the key, whether
    [selectedShapeRef] is passed as [ref], the props spread from the shape,
    and the three handlers ([onTransformEnd] is absent on a [Line]). *)
Module Element.
Record t := mk {
  tag : Tag;
  key : string;
  ref : bool;
  props : Shape.t;
  onClick : Handler Collection;
  onTransformEnd : option (Node.t -> Handler Collection);
  onDragEnd : Node.t -> Handler Collection
}.
End Element.

(** [shape.id === selectedId], where [selectedId] is a string or [null]. *)
Definition is_selectedId (selectedId : option string) (id : string) : bool :=
  match selectedId with
  | Some i => String.eqb id i
  | None => false
  end.

(** The body of [shapes.map((shape) => ...)] in the [Layer]. *)
Definition render_shape (st : State) (shape : Shape.t) : Element.t :=
  let isSelected := is_selectedId (selectedId st) (Shape.id shape) in
  match Shape.type shape with
  | rectangle =>
      Element.mk Rect (Shape.id shape) isSelected shape
                 (handleSelect (Shape.id shape))
                 (Some (Rect_onTransformEnd shape))
                 (Rect_onDragEnd shape)
  | circle =>
      Element.mk Circle (Shape.id shape) isSelected shape
                 (handleSelect (Shape.id shape))
                 (Some (Circle_onTransformEnd shape))
                 (Circle_onDragEnd shape)
  | line =>
      Element.mk Line (Shape.id shape) false shape
                 (handleSelect (Shape.id shape))
                 None
                 (Line_onDragEnd shape)
  end.

Definition render (st : State) : list Element.t :=
  map (render_shape st) (shapes st).

(** The patch that the drag handler of the element of [shape] passes to
    [updateShape]; [None] when the handler throws before the call. *)
Definition drag_patch_of (shape : Shape.t) (node : Node.t) : option Partial.t :=
  match Shape.type shape with
  | line => Line_drag_patch shape node
  | _ => Some (drag_patch node)
  end.

(** The patch that the transform handler of the element of [shape] passes. *)
Definition transform_patch_of (shape : Shape.t) (node : Node.t) : option Partial.t :=
  match Shape.type shape with
  | rectangle => Some (Rect_transform_patch node)
  | circle => Some (Circle_transform_patch shape node)
  | line => None
  end.

(** The cells that hold no collection. *)
Definition controls {C} (st : AppState C) :=
  (selectedId st, drawingType st, lineStart st, strokeColor st,
   strokeWidth st, dashStyle st, fillColor st).

(** Concrete states for the properties below. *)
Definition two_undone : State :=
  run [MouseDown (Some (Point.mk 10 10)) "a";
       MouseDown (Some (Point.mk 20 20)) "b"; Undo; Undo] initial.

Definition two_rects : State :=
  run [MouseDown (Some (Point.mk 10 10)) "a";
       MouseDown (Some (Point.mk 20 20)) "b"] initial.

(** ** The component without history

    The second source file is the same component before undo, redo and the
    transformer were added: eight [useState] cells, and an [updateShape] that
    takes no id and updates the shape named by [selectedId]. *)
Module Legacy.

Record LState := mkL {
  shapes : Collection;
  selectedId : option string;
  drawingType : ShapeType;
  lineStart : option Point.t;
  strokeColor : string;
  strokeWidth : float;
  dashStyle : DashStyle;
  fillColor : string
}.

Definition Update := LState -> LState.
Definition Handler := LState -> Update.

Definition skip : Update := fun st => st.
Definition and_then (u v : Update) : Update := fun st => v (u st).

Definition setShapes_fn (f : Collection -> Collection) : Update := fun st =>
  mkL (f (shapes st)) (selectedId st) (drawingType st) (lineStart st)
      (strokeColor st) (strokeWidth st) (dashStyle st) (fillColor st).
Definition setSelectedId (v : option string) : Update := fun st =>
  mkL (shapes st) v (drawingType st) (lineStart st)
      (strokeColor st) (strokeWidth st) (dashStyle st) (fillColor st).
Definition setLineStart (v : option Point.t) : Update := fun st =>
  mkL (shapes st) (selectedId st) (drawingType st) v
      (strokeColor st) (strokeWidth st) (dashStyle st) (fillColor st).

Definition dispatch (h : Handler) (st : LState) : LState := h st st.

Definition initial : LState :=
  mkL [] None rectangle None "#000000" 2 solid "#f0f0f0".

Definition createShape (pointer : option Point.t) (uuid : string) : Handler :=
  fun r =>
  match pointer with
  | None => skip
  | Some pointer =>
      let dashArray := if decide (dashStyle r = dashed) then [10; 5] else [] in
      if decide (drawingType r = line) then
        match lineStart r with
        | None => setLineStart (Some pointer)
        | Some lineStart =>
            let id := uuid in
            let newLine :=
              {| Shape.id := id;
                 Shape.type := line;
                 Shape.stroke := strokeColor r;
                 Shape.strokeWidth := strokeWidth r;
                 Shape.dash := dashArray;
                 Shape.draggable := true;
                 Shape.isSelected := false;
                 Shape.x := None; Shape.y := None;
                 Shape.width := None; Shape.height := None;
                 Shape.radius := None; Shape.fill := None;
                 Shape.points :=
                   Some [Point.x lineStart; Point.y lineStart;
                         Point.x pointer; Point.y pointer] |} in
            and_then (setShapes_fn (fun prev => prev ++ [newLine]))
                     (setLineStart None)
        end
      else
        let id := uuid in
        let newShape :=
          if decide (drawingType r = rectangle) then
            {| Shape.id := id;
               Shape.type := rectangle;
               Shape.stroke := strokeColor r;
               Shape.strokeWidth := strokeWidth r;
               Shape.dash := dashArray;
               Shape.draggable := true;
               Shape.isSelected := false;
               Shape.x := Some (Point.x pointer);
               Shape.y := Some (Point.y pointer);
               Shape.width := Some 100;
               Shape.height := Some 60;
               Shape.radius := None;
               Shape.fill := Some (fillColor r);
               Shape.points := None |}
          else
            {| Shape.id := id;
               Shape.type := circle;
               Shape.stroke := strokeColor r;
               Shape.strokeWidth := strokeWidth r;
               Shape.dash := dashArray;
               Shape.draggable := true;
               Shape.isSelected := false;
               Shape.x := Some (Point.x pointer);
               Shape.y := Some (Point.y pointer);
               Shape.width := None;
               Shape.height := None;
               Shape.radius := Some 40;
               Shape.fill := Some (fillColor r);
               Shape.points := None |} in
        setShapes_fn (fun prev => prev ++ [newShape])
  end.

Definition handleSelect (id : string) : Handler := fun _ =>
  and_then (setSelectedId (Some id))
           (setShapes_fn (fun prev =>
              map (fun shape => with_isSelected (String.eqb (Shape.id shape) id) shape)
                  prev)).

(** [!selectedId]: [null] and the empty string are falsy. *)
Definition falsy (selectedId : option string) : bool :=
  match selectedId with
  | None => true
  | Some s => String.eqb s ""
  end.

(** [updateShape(updatedShape)]: no id, the shape named by [selectedId]. *)
Definition updateShape (updatedShape : Partial.t) : Handler := fun r =>
  if falsy (selectedId r) then skip
  else
    setShapes_fn (fun prev =>
      map (fun shape =>
             if is_selectedId (selectedId r) (Shape.id shape)
             then spread shape updatedShape
             else shape) prev).

(** The drag handlers of the elements of [shape]. *)
Definition Rect_onDragEnd (shape : Shape.t) (node : Node.t) : Handler :=
  updateShape (drag_patch node).

Definition Circle_onDragEnd (shape : Shape.t) (node : Node.t) : Handler :=
  updateShape (drag_patch node).

Definition Line_onDragEnd (shape : Shape.t) (node : Node.t) : Handler :=
  match Line_drag_patch shape node with
  | Some p => updateShape p
  | None => fun _ => skip
  end.

(** Placements, one after the other. *)
Definition place_all (ps : list (option Point.t * string)) (st : LState) : LState :=
  foldl (fun st p => dispatch (createShape p.1 p.2) st) st ps.

End Legacy.
(** ** Basic facts about the array helpers *)

Lemma snoc_cases {A} (l : list A) : l = [] \/ exists l' a, l = l' ++ [a].
Proof.
  destruct l as [|b l] using rev_ind; [now left|right; eauto].
Qed.

Lemma last_elem_snoc {A} (l : list A) (a : A) : last_elem (l ++ [a]) = Some a.
Proof. apply last_snoc. Qed.

Lemma slice_0_m1_snoc {A} (l : list A) (a : A) : slice_0_m1 (l ++ [a]) = l.
Proof. apply removelast_last. Qed.

(** ** Undo and redo *)

Section UndoRedo.
Context {C : Type}.
Implicit Types st : AppState C.

Lemma undoLast_empty st : history st = [] -> dispatch undoLast st = st.
Proof. unfold dispatch, undoLast. now intros ->. Qed.

Lemma undoLast_snoc st h S :
  history st = h ++ [S] ->
  dispatch undoLast st =
    mkState S (selectedId st) (drawingType st) (lineStart st)
            (strokeColor st) (strokeWidth st) (dashStyle st) (fillColor st)
            h (redoStack st ++ [shapes st]).
Proof.
  unfold dispatch, undoLast. intros ->.
  now rewrite last_elem_snoc, slice_0_m1_snoc.
Qed.

Lemma redoLast_empty st : redoStack st = [] -> dispatch redoLast st = st.
Proof. unfold dispatch, redoLast. now intros ->. Qed.

Lemma redoLast_snoc st rs S :
  redoStack st = rs ++ [S] ->
  dispatch redoLast st =
    mkState S (selectedId st) (drawingType st) (lineStart st)
            (strokeColor st) (strokeWidth st) (dashStyle st) (fillColor st)
            (history st ++ [shapes st]) rs.
Proof.
  unfold dispatch, redoLast. intros ->.
  now rewrite last_elem_snoc, slice_0_m1_snoc.
Qed.

Lemma redo_undo_snoc st h S :
  history st = h ++ [S] -> dispatch redoLast (dispatch undoLast st) = st.
Proof.
  intros Hh. rewrite (undoLast_snoc _ _ _ Hh).
  erewrite redoLast_snoc by reflexivity.
  destruct st; simpl in *. now subst.
Qed.
End UndoRedo.

(** ** C1: undo, and undo followed by redo *)

(** C1, counterexample: place a rectangle and undo it.  The undo stack is now
    empty and the redo stack is not, so a further undo does nothing while the
    redo that follows it brings the rectangle back: undo followed by redo
    does not restore the collection that was live before the undo. *)
Lemma undo_redo_not_identity :
  history after_create_undo = [] /\
  shapes after_create_undo = [] /\
  shapes (step Redo (step Undo after_create_undo)) <> shapes after_create_undo.
Proof.
  split; [reflexivity|]. split; [reflexivity|].
  vm_compute. discriminate.
Qed.

(** C1, amended: undo with an empty undo stack changes nothing; otherwise it
    pops the top snapshot [S], pushes the live collection onto the redo stack
    and makes [S] the live collection; and when the undo stack is not empty,
    or the redo stack is empty, undo followed by redo restores the collection
    (indeed the whole state). *)
Theorem undo_then_redo (st : State) :
  (history st = [] -> step Undo st = st) /\
  (forall h S, history st = h ++ [S] ->
     step Undo st =
       mkState S (selectedId st) (drawingType st) (lineStart st)
               (strokeColor st) (strokeWidth st) (dashStyle st) (fillColor st)
               h (redoStack st ++ [shapes st])) /\
  (history st <> [] \/ redoStack st = [] -> step Redo (step Undo st) = st).
Proof.
  split; [apply undoLast_empty|]. split; [apply undoLast_snoc|].
  intros Hne. unfold step; simpl.
  destruct (snoc_cases (history st)) as [Hh|(h & S & Hh)].
  - destruct Hne as [Hne|Hr]; [done|].
    rewrite (undoLast_empty _ Hh). now apply redoLast_empty.
  - now apply (redo_undo_snoc _ h S).
Qed.

Lemma undo_then_redo_witness :
  step Redo (step Undo after_create) = after_create.
Proof.
  apply (undo_then_redo after_create). left. vm_compute. discriminate.
Defined.

(** ** C2: a mutation records the old collection and empties the redo stack *)

Lemma createShape_cases (st : State) pointer uuid :
  step (MouseDown pointer uuid) st = st
  \/ (exists P, pointer = Some P /\ drawingType st = line /\ lineStart st = None
       /\ step (MouseDown pointer uuid) st = setLineStart (Some P) st)
  \/ (exists newShape,
       Shape.id newShape = uuid /\ Shape.isSelected newShape = false /\
       shapes (step (MouseDown pointer uuid) st) = shapes st ++ [newShape] /\
       history (step (MouseDown pointer uuid) st) = history st ++ [shapes st] /\
       redoStack (step (MouseDown pointer uuid) st) = []).
Proof.
  unfold step, dispatch; simpl. unfold createShape.
  destruct pointer as [P|]; [|now left].
  destruct (decide (drawingType st = line)) as [Hl|Hl].
  - destruct (lineStart st) as [S|] eqn:Hs.
    + right; right. eexists. repeat split; reflexivity.
    + right; left. exists P. now repeat split.
  - right; right.
    destruct (decide (drawingType st = rectangle));
      eexists; repeat split; reflexivity.
Qed.

(** C2: an event that mutates the collection (a placement that adds a shape,
    or a geometry update) pushes the collection it found onto the undo stack
    and leaves the redo stack empty, so the redo that follows it changes
    nothing. *)
Theorem mutation_clears_redo (st : State) (e : Event) :
  mutating st e ->
  history (step e st) = history st ++ [shapes st] /\
  redoStack (step e st) = [] /\
  step Redo (step e st) = step e st.
Proof.
  intros Hm.
  assert (history (step e st) = history st ++ [shapes st]
          /\ redoStack (step e st) = []) as [Hh Hr].
  { destruct e; try (now simpl in Hm).
    unfold mutating in Hm.
    destruct (createShape_cases st pointer uuid)
      as [Heq|[(P & _ & _ & _ & Heq)|(s & _ & _ & _ & Hh & Hr)]].
    - now rewrite Heq in Hm.
    - rewrite Heq in Hm. now destruct st.
    - done. }
  repeat split; try done.
  now apply redoLast_empty.
Qed.

Lemma mutation_clears_redo_witness :
  redoStack one_undone <> [] /\
  step Redo (step (MouseDown (Some (Point.mk 30 30)) "c") one_undone)
  = step (MouseDown (Some (Point.mk 30 30)) "c") one_undone.
Proof.
  split; [vm_compute; discriminate|].
  apply (mutation_clears_redo one_undone).
  intros H. apply (f_equal length) in H. vm_compute in H. discriminate.
Defined.

(** The scenario of the specification: create A, create B, undo, redo. *)
Example create_create_undo_redo :
  let A := MouseDown (Some (Point.mk 10 10)) "a" in
  let B := MouseDown (Some (Point.mk 20 20)) "b" in
  shapes (run [A; B; Undo] initial) = shapes (run [A] initial) /\
  shapes (run [A; B; Undo; Redo] initial) = shapes (run [A; B] initial).
Proof. split; reflexivity. Qed.

(** ** C3: a line takes two clicks *)

Lemma createShape_line_first (st : State) (P : Point.t) (uuid : string) :
  drawingType st = line -> lineStart st = None ->
  step (MouseDown (Some P) uuid) st = setLineStart (Some P) st.
Proof.
  intros Hl Hs. unfold step, dispatch; simpl. unfold createShape.
  destruct (decide (drawingType st = line)); [|done]. now rewrite Hs.
Qed.

Lemma createShape_line_second (st : State) (S P : Point.t) (uuid : string) :
  drawingType st = line -> lineStart st = Some S ->
  step (MouseDown (Some P) uuid) st
  = (pushToHistory st >>>
     setShapes_fn (fun prev => prev ++ [line_from st uuid S P]) >>>
     setLineStart None) st.
Proof.
  intros Hl Hs. unfold step, dispatch; simpl. unfold createShape.
  destruct (decide (drawingType st = line)); [|done]. now rewrite Hs.
Qed.

(** C3: with the line tool, a click without a pending start point records the
    point and changes nothing else (no shape, no history entry); a click with
    the pending start point [S] at the point [P] appends exactly one line
    with points [S.x, S.y, P.x, P.y], pushes exactly one history entry and
    clears the pending point. *)
Theorem line_two_phase (st : State) (P : Point.t) (uuid : string) :
  drawingType st = line ->
  (lineStart st = None ->
     step (MouseDown (Some P) uuid) st = setLineStart (Some P) st /\
     shapes (step (MouseDown (Some P) uuid) st) = shapes st /\
     history (step (MouseDown (Some P) uuid) st) = history st /\
     lineStart (step (MouseDown (Some P) uuid) st) = Some P) /\
  (forall S, lineStart st = Some S ->
     shapes (step (MouseDown (Some P) uuid) st)
       = shapes st ++ [line_from st uuid S P] /\
     Shape.points (line_from st uuid S P)
       = Some [Point.x S; Point.y S; Point.x P; Point.y P] /\
     history (step (MouseDown (Some P) uuid) st) = history st ++ [shapes st] /\
     lineStart (step (MouseDown (Some P) uuid) st) = None).
Proof.
  intros Hl. split.
  - intros Hs. rewrite (createShape_line_first st P uuid Hl Hs). now repeat split.
  - intros S Hs. rewrite (createShape_line_second st S P uuid Hl Hs).
    now repeat split.
Qed.

Lemma line_two_phase_witness :
  shapes (run [MouseDown (Some (Point.mk 0 0)) "l0";
               MouseDown (Some (Point.mk 50 50)) "l1"] line_tool)
  = [line_from line_tool "l1" (Point.mk 0 0) (Point.mk 50 50)].
Proof.
  pose proof (line_two_phase line_tool (Point.mk 0 0) "l0" eq_refl) as [H0 _].
  destruct (H0 eq_refl) as (Hst & _).
  pose proof (line_two_phase (step (MouseDown (Some (Point.mk 0 0)) "l0") line_tool)
                (Point.mk 50 50) "l1" eq_refl) as [_ H1].
  destruct (H1 (Point.mk 0 0) eq_refl) as (Hs & _).
  exact Hs.
Defined.

(** ** C4: rectangles and circles *)

(** C4, counterexample: the rectangle placed at (10,10) in the initial state
    is the only shape of the collection and its [isSelected] flag is
    [false]. *)
Lemma created_rectangle_flag_is_false :
  map Shape.isSelected
      (shapes (step (MouseDown (Some (Point.mk 10 10)) "a") initial))
  = [false].
Proof. reflexivity. Qed.

(** C4, amended: placing a rectangle at [P] appends a shape with origin [P],
    width 100 and height 60, placing a circle appends a shape with centre [P]
    and radius 40, each with the stroke, width, dash and fill of the tool
    configuration; the new shape is stored with [isSelected = false] and is
    made the selected shape through [selectedId], which becomes its id. *)
Theorem create_rectangle_or_circle (st : State) (P : Point.t) (uuid : string) :
  (drawingType st = rectangle ->
     shapes (step (MouseDown (Some P) uuid) st) = shapes st ++ [rect_at st uuid P] /\
     selectedId (step (MouseDown (Some P) uuid) st) = Some uuid) /\
  (drawingType st = circle ->
     shapes (step (MouseDown (Some P) uuid) st) = shapes st ++ [circle_at st uuid P] /\
     selectedId (step (MouseDown (Some P) uuid) st) = Some uuid).
Proof.
  unfold step, dispatch; simpl. unfold createShape.
  split; intros ->; now simpl.
Qed.

Lemma create_rectangle_or_circle_witness :
  shapes (step (MouseDown (Some (Point.mk 10 10)) "a") initial)
  = [rect_at initial "a" (Point.mk 10 10)]
  /\ selectedId (step (MouseDown (Some (Point.mk 10 10)) "a") initial) = Some "a".
Proof.
  apply (create_rectangle_or_circle initial (Point.mk 10 10) "a"). reflexivity.
Defined.

(** ** Comparison of binary64 numbers *)












(** ** C5: the minimum size *)









(** ** [updateShape] on the collection *)

Lemma updateShape_spec (st : State) (id : string) (p : Partial.t) :
  shapes (step (UpdateShape id p) st)
    = map (fun shape => if String.eqb (Shape.id shape) id then spread shape p else shape)
          (shapes st) /\
  history (step (UpdateShape id p) st) = history st ++ [shapes st] /\
  redoStack (step (UpdateShape id p) st) = [].
Proof. now repeat split. Qed.

Lemma handleSelect_spec (st : State) (id : string) :
  shapes (step (Click id) st)
    = map (fun shape => with_isSelected (String.eqb (Shape.id shape) id) shape)
          (shapes st) /\
  selectedId (step (Click id) st) = Some id /\
  history (step (Click id) st) = history st /\
  redoStack (step (Click id) st) = redoStack st.
Proof. now repeat split. Qed.

(** ** C6: dragging a line *)

(** C6, counterexample: the line [0.1, 0, 0.3, 0] dragged to the first
    endpoint position (0.2, 0) becomes [0.2, 0, 0.4, 0].  The first endpoint
    has moved by 0.1 and the second by 0.10000000000000003, and the extent of
    the segment has changed from 0.19999999999999998 to 0.2: the endpoints
    have not moved by the same amount and the length is not preserved. *)
Lemma line_drag_not_rigid :
  exists old new,
    Shape.points line_01_03 = Some old /\
    Partial.points <$> Line_drag_patch line_01_03 drag_to_02 = Some (Some new) /\
    old = [0.1; 0; 0.3; 0] /\
    new = [0.2; 0; 0.4; 0] /\
    elem 0 new - elem 0 old = 0.1 /\
    elem 2 new - elem 2 old = 0.10000000000000003 /\
    (elem 0 new - elem 0 old =? elem 2 new - elem 2 old) = false /\
    (elem 2 new - elem 0 new =? elem 2 old - elem 0 old) = false.
Proof. do 2 eexists. repeat split; reflexivity. Qed.

(** C6, amended: for a line with points [x1, y1, x2, y2] and a drag that
    reports the position (nx, ny), [Line.onDragEnd] makes one call of
    [updateShape], hence one history entry, with the points
    [x1+dx, y1+dy, x2+dx, y2+dy] where dx = nx - x1 and dy = ny - y1, every
    sum and difference being a binary64 operation; the same dx and dy are
    added to both endpoints. *)
Theorem line_drag (st : State) (shape : Shape.t) (node : Node.t)
    (x1 y1 x2 y2 : float) :
  Shape.points shape = Some [x1; y1; x2; y2] ->
  let dx := Node.x node - x1 in
  let dy := Node.y node - y1 in
  let p := geometry None None None None None
             (Some [x1 + dx; y1 + dy; x2 + dx; y2 + dy]) in
  Line_drag_patch shape node = Some p /\
  dispatch (Line_onDragEnd shape node) st = step (UpdateShape (Shape.id shape) p) st /\
  history (dispatch (Line_onDragEnd shape node) st) = history st ++ [shapes st] /\
  shapes (dispatch (Line_onDragEnd shape node) st)
    = map (fun s => if String.eqb (Shape.id s) (Shape.id shape) then spread s p else s)
          (shapes st) /\
  Shape.points (spread shape p) = Some [x1 + dx; y1 + dy; x2 + dx; y2 + dy].
Proof.
  intros Hp dx dy p.
  assert (Line_drag_patch shape node = Some p) as Hpatch.
  { unfold Line_drag_patch. now rewrite Hp. }
  unfold Line_onDragEnd. rewrite Hpatch. now repeat split.
Qed.

Lemma line_drag_witness :
  shapes (dispatch (Line_onDragEnd line_0_50 (Node.mk 10 20 0 0 1 1))
                   (mkState [line_0_50] None line None "#000000" 2 solid "#f0f0f0" [] []))
  = [spread line_0_50
       (geometry None None None None None (Some [10; 20; 60; 70]))].
Proof.
  destruct (line_drag (mkState [line_0_50] None line None "#000000" 2 solid "#f0f0f0" [] [])
              line_0_50 (Node.mk 10 20 0 0 1 1) 0 0 50 50 eq_refl)
    as (_ & _ & _ & Hs & _).
  exact Hs.
Defined.

(** ** C7: an id that no shape has *)

(** C7, counterexample: place ["zz"], undo, place ["a"] and select it.  The
    collection is now the selected rectangle ["a"] and the undo stack holds
    the empty collection.  Selecting the absent id ["zz"] clears the flag of
    ["a"], so the collection changes.  The drag handler of ["zz"], created
    in the render that showed ["zz"], calls [updateShape] with the absent id
    and pushes a history entry: the undo stack becomes the empty collection
    followed by the collection of that render, which holds ["zz"]. *)
Lemma absent_id_not_noop :
  ("zz" ∉ ids (shapes zz_gone)) /\
  shapes (step (Click "zz") zz_gone) <> shapes zz_gone /\
  history (updateShape "zz" Partial.empty zz_render zz_gone) <> history zz_gone /\
  map ids (history zz_gone) = [[]] /\
  map ids (history (updateShape "zz" Partial.empty zz_render zz_gone)) = [[]; ["zz"]].
Proof.
  split; [|split; [|split; [|split]]].
  - apply (bool_decide_unpack _). vm_compute. exact I.
  - intros H. apply (f_equal (map Shape.isSelected)) in H.
    vm_compute in H. discriminate.
  - intros H. apply (f_equal length) in H. vm_compute in H. discriminate.
  - reflexivity.
  - reflexivity.
Qed.

Lemma with_isSelected_same (s : Shape.t) :
  with_isSelected (Shape.isSelected s) s = s.
Proof. now destruct s. Qed.

Lemma map_id_ext {A} (f : A -> A) (l : list A) :
  (forall a, a ∈ l -> f a = a) -> map f l = l.
Proof.
  induction l as [|a l IH]; intros H; simpl; [done|].
  rewrite H by left. rewrite IH; [done|]. intros b Hb. apply H. now right.
Qed.

Lemma eqb_absent (c : Collection) (id : string) (s : Shape.t) :
  id ∉ ids c -> s ∈ c -> String.eqb (Shape.id s) id = false.
Proof.
  intros Hn Hs. apply String.eqb_neq. intros <-.
  apply Hn. unfold ids. apply list_elem_of_fmap. eauto.
Qed.

Lemma selected_count_0 (c : Collection) (s : Shape.t) :
  selected_count c = 0%nat -> s ∈ c -> Shape.isSelected s = false.
Proof.
  unfold selected_count. induction c as [|a c IH]; intros H Hs.
  - inversion Hs.
  - simpl in H. destruct (Shape.isSelected a) eqn:Ha; [done|].
    inversion Hs; subst; [done|]. now apply IH.
Qed.

(** C7, amended: for an id that no shape of the collection has, neither
    handler throws.  The handlers of the current render carry ids of the
    collection only, so [updateShape] meets an absent id when it is called by
    a handler of an earlier render [r]: it leaves the collection as it is but
    still pushes one entry onto the undo stack, the collection that [r]
    showed (the live collection only if [r] is the current render), and
    empties the redo stack.  [handleSelect], which closes over nothing,
    pushes no history entry, stores the id in [selectedId] and sets the
    [isSelected] flag of every shape to [false]: the collection is unchanged
    exactly when no shape was flagged. *)
Theorem absent_id (r st : State) (id : string) (p : Partial.t) :
  id ∉ ids (shapes st) ->
  (shapes (updateShape id p r st) = shapes st /\
   history (updateShape id p r st) = history st ++ [shapes r] /\
   redoStack (updateShape id p r st) = []) /\
  (handleSelect id r st = step (Click id) st /\
   shapes (step (Click id) st) = map (with_isSelected false) (shapes st) /\
   selectedId (step (Click id) st) = Some id /\
   history (step (Click id) st) = history st /\
   redoStack (step (Click id) st) = redoStack st /\
   (selected_count (shapes st) = 0%nat -> shapes (step (Click id) st) = shapes st)) /\
  (forall el, el ∈ render st -> Element.key el ∈ ids (shapes st)) /\
  (step (UpdateShape id p) st = updateShape id p st st).
Proof.
  intros Hn.
  destruct (handleSelect_spec st id) as (Hs & Hi & Hh' & Hr').
  assert (shapes (step (Click id) st) = map (with_isSelected false) (shapes st)) as Hs'.
  { rewrite Hs. apply map_ext_in. intros s Hin.
    rewrite (eqb_absent (shapes st) id s); [done|done|].
    now apply list_elem_of_In. }
  split; [|split; [|split; [|reflexivity]]].
  - split; [|now split].
    change (shapes (updateShape id p r st))
      with (map (fun shape => if String.eqb (Shape.id shape) id
                              then spread shape p else shape) (shapes st)).
    apply map_id_ext. intros s Hin.
    now rewrite (eqb_absent (shapes st) id s).
  - split; [reflexivity|]. repeat split; try done.
    intros H0. rewrite Hs'. apply map_id_ext. intros s Hin.
    rewrite <- (selected_count_0 _ _ H0 Hin). apply with_isSelected_same.
  - intros el Hel. unfold render in Hel.
    apply list_elem_of_fmap in Hel as (s & -> & Hin).
    assert (Element.key (render_shape st s) = Shape.id s) as ->.
    { unfold render_shape. now destruct (Shape.type s). }
    unfold ids. apply list_elem_of_fmap. eauto.
Qed.

Lemma absent_id_witness :
  (shapes (updateShape "zz" Partial.empty zz_render zz_gone) = shapes zz_gone /\
   history (updateShape "zz" Partial.empty zz_render zz_gone)
   = history zz_gone ++ [shapes zz_render]) /\
  shapes (step (Click "zz") after_create) = shapes after_create.
Proof.
  assert ("zz" ∉ ids (shapes zz_gone)) as Hn.
  { apply (bool_decide_unpack _). vm_compute. exact I. }
  assert ("zz" ∉ ids (shapes after_create)) as Hn'.
  { apply (bool_decide_unpack _). vm_compute. exact I. }
  destruct (absent_id zz_render zz_gone "zz" Partial.empty Hn) as ((Hu & Hh & _) & _).
  destruct (absent_id after_create after_create "zz" Partial.empty Hn')
    as (_ & (_ & _ & _ & _ & _ & Hs) & _).
  split; [now split|]. apply Hs. reflexivity.
Defined.

(** ** C8: at most one shape is flagged as selected *)

#[local] Close Scope float_scope.

Lemma selected_count_app (c d : Collection) :
  selected_count (c ++ d) = selected_count c + selected_count d.
Proof. unfold selected_count. now rewrite List.filter_app, length_app. Qed.

Lemma coll_ok_nil : coll_ok [].
Proof. split; [constructor|]. unfold selected_count. simpl. lia. Qed.

Lemma coll_ok_snoc (c : Collection) (s : Shape.t) :
  coll_ok c -> Shape.id s ∉ ids c -> Shape.isSelected s = false ->
  coll_ok (c ++ [s]).
Proof.
  intros [Hnd Hc] Hid Hs. split.
  - unfold ids. rewrite map_app. apply NoDup_app. repeat split.
    + exact Hnd.
    + intros i Hi Hi'. apply list_elem_of_singleton in Hi'. now subst.
    + apply NoDup_singleton.
  - rewrite selected_count_app. unfold selected_count at 2. simpl.
    rewrite Hs. simpl. lia.
Qed.

Lemma select_none (c : Collection) (id : string) :
  id ∉ ids c ->
  selected_count
    (map (fun shape => with_isSelected (String.eqb (Shape.id shape) id) shape) c) = 0.
Proof.
  unfold selected_count. induction c as [|s c IH]; intros Hn; simpl; [done|].
  assert (String.eqb (Shape.id s) id = false) as ->.
  { apply String.eqb_neq. intros <-. apply Hn. left. }
  simpl. apply IH. intros Hin. apply Hn. now right.
Qed.

Lemma select_ids (c : Collection) (id : string) :
  ids (map (fun shape => with_isSelected (String.eqb (Shape.id shape) id) shape) c)
  = ids c.
Proof. unfold ids. rewrite map_map. now apply map_ext. Qed.

Lemma coll_ok_select (c : Collection) (id : string) :
  NoDup (ids c) ->
  coll_ok (map (fun shape => with_isSelected (String.eqb (Shape.id shape) id) shape) c).
Proof.
  intros Hnd. split; [now rewrite select_ids|].
  induction c as [|s c IH]; [apply coll_ok_nil|].
  apply NoDup_cons in Hnd as [Hs Hnd].
  change (selected_count
            (with_isSelected (String.eqb (Shape.id s) id) s
             :: map (fun shape => with_isSelected (String.eqb (Shape.id shape) id) shape) c)
          <= 1).
  unfold selected_count. simpl.
  destruct (String.eqb (Shape.id s) id) eqn:E; simpl.
  - apply String.eqb_eq in E. subst id.
    pose proof (select_none c (Shape.id s) Hs) as H0.
    unfold selected_count in H0. rewrite H0. lia.
  - now apply IH.
Qed.

Lemma spread_geometry (s : Shape.t) (p : Partial.t) :
  is_geometry p = true ->
  Shape.id (spread s p) = Shape.id s /\
  Shape.isSelected (spread s p) = Shape.isSelected s.
Proof.
  unfold is_geometry. destruct p as [i t st sw d dr sel x y w h r f pts]. simpl.
  destruct i, t, st, sw, d, dr, sel, f; simpl; try done.
Qed.

Lemma coll_ok_update (c : Collection) (id : string) (p : Partial.t) :
  is_geometry p = true -> coll_ok c ->
  coll_ok (map (fun shape => if String.eqb (Shape.id shape) id then spread shape p else shape) c).
Proof.
  intros Hg [Hnd Hc].
  set (f := fun shape : Shape.t =>
              if String.eqb (Shape.id shape) id then spread shape p else shape).
  assert (forall s, Shape.id (f s) = Shape.id s /\ Shape.isSelected (f s) = Shape.isSelected s)
    as Hf.
  { intros s. unfold f. destruct (String.eqb (Shape.id s) id); [|done].
    now apply spread_geometry. }
  split.
  - unfold ids. rewrite map_map.
    erewrite map_ext; [exact Hnd|]. intros s. apply Hf.
  - assert (selected_count (map f c) = selected_count c) as ->; [|done].
    unfold selected_count. clear Hnd Hc.
    induction c as [|s c IH]; simpl; [done|].
    rewrite (proj2 (Hf s)). destruct (Shape.isSelected s); simpl; now rewrite IH.
Qed.

Lemma Forall_last_elem {A} (P : A -> Prop) (l : list A) (a : A) :
  Forall P l -> last_elem l = Some a -> P a /\ Forall P (slice_0_m1 l).
Proof.
  destruct (snoc_cases l) as [->|(l' & b & ->)]; [done|].
  rewrite last_elem_snoc, slice_0_m1_snoc. intros H [= <-].
  apply Forall_app in H as [H1 H2]. split; [|done].
  now inversion H2.
Qed.

Lemma Forall_snoc {A} (P : A -> Prop) (l : list A) (a : A) :
  Forall P l -> P a -> Forall P (l ++ [a]).
Proof. intros Hl Ha. apply Forall_app. split; [done|]. now constructor. Qed.

Lemma inv_step (st : State) (e : Event) : inv st -> allowed st e -> inv (step e st).
Proof.
  intros (Hs & Hh & Hr) Ha. destruct e; try exact (conj Hs (conj Hh Hr)).
  - (* createShape *)
    destruct (createShape_cases st pointer uuid)
      as [->|[(P & _ & _ & _ & ->)|(s & Hid & Hsel & Hshapes & Hhist & Hredo)]].
    + done.
    + done.
    + unfold inv. rewrite Hshapes, Hhist, Hredo. split; [|split].
      * apply coll_ok_snoc; [done| |done]. now rewrite Hid.
      * now apply Forall_snoc.
      * constructor.
  - (* handleSelect *)
    destruct (handleSelect_spec st id) as (Hs' & _ & Hh' & Hr').
    unfold inv. rewrite Hs', Hh', Hr'. split; [|done].
    apply coll_ok_select, Hs.
  - (* updateShape *)
    destruct (updateShape_spec st id updatedProps) as (Hs' & Hh' & Hr').
    unfold inv. rewrite Hs', Hh', Hr'. split; [|split].
    + now apply coll_ok_update.
    + now apply Forall_snoc.
    + constructor.
  - (* undoLast *)
    unfold step, dispatch; simpl. unfold undoLast.
    destruct (last_elem (history st)) as [prev|] eqn:E; [|done].
    destruct (Forall_last_elem _ _ _ Hh E) as [Hp Hh'].
    split; [|split]; simpl; try done. now apply Forall_snoc.
  - (* redoLast *)
    unfold step, dispatch; simpl. unfold redoLast.
    destruct (last_elem (redoStack st)) as [next|] eqn:E; [|done].
    destruct (Forall_last_elem _ _ _ Hr E) as [Hp Hr'].
    split; [|split]; simpl; try done. now apply Forall_snoc.
Qed.

Lemma reachable_inv (st : State) : reachable st -> inv st.
Proof.
  induction 1 as [|st e _ IH Ha].
  - split; [apply coll_ok_nil|split; constructor].
  - now apply inv_step.
Qed.

(** The patches of the five gesture handlers are geometry patches. *)
Lemma gesture_patches_are_geometry (shape : Shape.t) (node : Node.t) :
  is_geometry (Rect_transform_patch node) = true /\
  is_geometry (drag_patch node) = true /\
  is_geometry (Circle_transform_patch shape node) = true /\
  (forall p, Line_drag_patch shape node = Some p -> is_geometry p = true).
Proof.
  repeat split. unfold Line_drag_patch.
  destruct (Shape.points shape); intros p [= <-]. reflexivity.
Qed.

Lemma with_isSelected_fields (b : bool) (s : Shape.t) :
  Shape.id (with_isSelected b s) = Shape.id s /\
  Shape.isSelected (with_isSelected b s) = b.
Proof. done. Qed.

(** C8: in every state reachable from the initial one by placements (with
    fresh ids), selections, geometry updates, undo, redo and changes of the
    tool configuration, at most one shape has its [isSelected] flag set; and
    selecting an id of the collection sets the flag of the shapes with that
    id, clears every other flag, changes nothing else in the shapes and
    pushes no history entry. *)
Theorem selection_exclusive :
  (forall st, reachable st -> selected_count (shapes st) <= 1) /\
  (forall st id, id ∈ ids (shapes st) ->
     shapes (step (Click id) st)
       = map (fun s => with_isSelected (String.eqb (Shape.id s) id) s) (shapes st) /\
     (forall s, s ∈ shapes (step (Click id) st) ->
        Shape.isSelected s = true <-> Shape.id s = id) /\
     (exists s, s ∈ shapes (step (Click id) st) /\
        Shape.id s = id /\ Shape.isSelected s = true) /\
     history (step (Click id) st) = history st /\
     redoStack (step (Click id) st) = redoStack st).
Proof.
  split.
  - intros st Hr. apply (reachable_inv st Hr).
  - intros st id Hin.
    destruct (handleSelect_spec st id) as (Hs & _ & Hh & Hr).
    rewrite Hs. repeat split; try done.
    + intros Hsel. apply list_elem_of_fmap in H as (s0 & -> & _).
      destruct (with_isSelected_fields (String.eqb (Shape.id s0) id) s0) as [Hi Hf].
      rewrite Hi. rewrite Hf in Hsel. now apply String.eqb_eq.
    + intros Hid. apply list_elem_of_fmap in H as (s0 & -> & _).
      destruct (with_isSelected_fields (String.eqb (Shape.id s0) id) s0) as [Hi Hf].
      rewrite Hf. rewrite Hi in Hid. now apply String.eqb_eq.
    + unfold ids in Hin. apply list_elem_of_fmap in Hin as (s0 & -> & Hs0).
      exists (with_isSelected (String.eqb (Shape.id s0) (Shape.id s0)) s0).
      repeat split.
      * apply list_elem_of_fmap. eauto.
      * simpl. apply String.eqb_refl.
Qed.

Lemma selection_exclusive_witness :
  selected_count (shapes two_then_select) <= 1 /\
  history (step (Click "a") two_then_select) = history two_then_select.
Proof.
  destruct selection_exclusive as [Hreach Hsel]. split.
  - apply Hreach. unfold two_then_select, run, foldl.
    apply reachable_step; [|exact I].
    apply reachable_step; [|exact I].
    apply reachable_step; [|apply (bool_decide_unpack _); vm_compute; exact I].
    apply reachable_step; [|apply (bool_decide_unpack _); vm_compute; exact I].
    apply reachable_initial.
  - apply Hsel. apply (bool_decide_unpack _). vm_compute. exact I.
Defined.

(** ** C10: the pending start point of a line *)

#[local] Open Scope float_scope.

Lemma lineStart_step (st : State) (e : Event) :
  lineStart (step e st) = lineStart st
  \/ (exists P uuid, e = MouseDown (Some P) uuid /\ drawingType st = line /\
        lineStart (step e st) = match lineStart st with
                                | None => Some P
                                | Some _ => None
                                end).
Proof.
  destruct e; try (now left).
  - unfold step, dispatch; simpl. unfold createShape.
    destruct pointer as [P|]; [|now left].
    destruct (decide (drawingType st = line)) as [Hl|Hl]; [|now left].
    right. exists P, uuid. repeat split; [done|]. now destruct (lineStart st).
  - unfold step, dispatch; simpl. unfold undoLast.
    now destruct (last_elem (history st)); left.
  - unfold step, dispatch; simpl. unfold redoLast.
    now destruct (last_elem (redoStack st)); left.
Qed.

Lemma lineStart_between_clicks (es : list Event) (st : State) :
  Forall (fun e => between_clicks e = true) es ->
  lineStart (run es st) = lineStart st.
Proof.
  revert st. induction es as [|e es IH]; intros st Hes; [done|].
  inversion Hes as [|? ? He Hes']; subst.
  change (run (e :: es) st) with (run es (step e st)).
  rewrite (IH _ Hes').
  destruct (lineStart_step st e) as [H|(P & uuid & -> & _)]; [done|].
  discriminate He.
Qed.

(** C10: a pending start point survives undo, redo and a change of the
    shape kind; any event leaves it in place except a click on the canvas
    made with the line tool, which consumes it; hence after any sequence of
    undo, redo and kind changes that ends with the line tool active, the next
    click completes a line that starts at the pending point. *)
Theorem pending_point_kept (st : State) (p : Point.t) :
  lineStart st = Some p ->
  (lineStart (step Undo st) = Some p /\
   lineStart (step Redo st) = Some p /\
   forall v, lineStart (step (ChangeShape v) st) = Some p) /\
  (forall e,
     lineStart (step e st) = Some p \/
     (lineStart (step e st) = None /\ drawingType st = line /\
      exists P uuid, e = MouseDown (Some P) uuid)) /\
  (forall es c uuid,
     Forall (fun e => between_clicks e = true) es ->
     drawingType (run es st) = line ->
     shapes (step (MouseDown (Some c) uuid) (run es st))
       = shapes (run es st) ++ [line_from (run es st) uuid p c] /\
     lineStart (step (MouseDown (Some c) uuid) (run es st)) = None).
Proof.
  intros Hp. split; [|split].
  - split; [|split].
    + rewrite <- Hp. apply (lineStart_between_clicks [Undo]). now repeat constructor.
    + rewrite <- Hp. apply (lineStart_between_clicks [Redo]). now repeat constructor.
    + intros v. rewrite <- Hp.
      apply (lineStart_between_clicks [ChangeShape v]). now repeat constructor.
  - intros e. destruct (lineStart_step st e) as [H|(P & uuid & -> & Hl & H)].
    + left. now rewrite H.
    + right. rewrite Hp in H. eauto.
  - intros es c uuid Hes Hl.
    pose proof (lineStart_between_clicks es st Hes) as Hkeep. rewrite Hp in Hkeep.
    now rewrite (createShape_line_second (run es st) p c uuid Hl Hkeep).
Qed.

Lemma pending_point_kept_witness :
  shapes (run [ChangeShape circle; Undo; Redo; ChangeShape line;
               MouseDown (Some (Point.mk 50 50)) "l1"] pending_0_0)
  = [line_from line_tool "l1" (Point.mk 0 0) (Point.mk 50 50)].
Proof.
  destruct (pending_point_kept pending_0_0 (Point.mk 0 0) eq_refl) as (_ & _ & H).
  destruct (H [ChangeShape circle; Undo; Redo; ChangeShape line]
              (Point.mk 50 50) "l1") as [Hs _].
  - repeat constructor.
  - reflexivity.
  - exact Hs.
Defined.

(** ** The store only grows *)

#[local] Close Scope float_scope.

Lemma extends_refl (σ : Heap.store) : Heap.extends σ σ.
Proof. split; reflexivity. Qed.

Lemma extends_trans (σ1 σ2 σ3 : Heap.store) :
  Heap.extends σ1 σ2 -> Heap.extends σ2 σ3 -> Heap.extends σ1 σ3.
Proof. intros [H1 H2] [H3 H4]. split; etrans; eassumption. Qed.

Lemma alloc_obj_extends (s : Shape.t) (σ : Heap.store) :
  Heap.extends σ (Heap.alloc_obj s σ).2.
Proof. split; simpl; [now apply prefix_app_r|reflexivity]. Qed.

Lemma alloc_arr_extends (l : list Heap.loc) (σ : Heap.store) :
  Heap.extends σ (Heap.alloc_arr l σ).2.
Proof. split; simpl; [reflexivity|now apply prefix_app_r]. Qed.

Lemma extends_objs_length (σ σ' : Heap.store) :
  Heap.extends σ σ' -> length (Heap.objs σ) <= length (Heap.objs σ').
Proof. intros [H _]. now apply prefix_length. Qed.

Lemma extends_read_obj (σ σ' : Heap.store) (o : Heap.loc) :
  Heap.extends σ σ' -> o < length (Heap.objs σ) ->
  Heap.read_obj σ' o = Heap.read_obj σ o.
Proof.
  intros [[k Hk] _] Ho. unfold Heap.read_obj.
  rewrite Hk. now rewrite lookup_total_app_l.
Qed.

Lemma extends_arrs_lookup (σ σ' : Heap.store) (a : Heap.loc) (l : list Heap.loc) :
  Heap.extends σ σ' -> Heap.arrs σ !! a = Some l -> Heap.arrs σ' !! a = Some l.
Proof. intros [_ H] Ha. now apply (prefix_lookup_Some _ _ _ _ Ha). Qed.

Lemma Forall_lt_mono (l : list Heap.loc) (n m : nat) :
  n <= m -> Forall (fun o => o < n) l -> Forall (fun o => o < m) l.
Proof. intros Hnm H. eapply Forall_impl; [exact H|]. intros o Ho. simpl in Ho. lia. Qed.

Lemma extends_arr_ok (σ σ' : Heap.store) (a : Heap.loc) :
  Heap.extends σ σ' -> Heap.arr_ok σ a ->
  Heap.arr_ok σ' a /\ Heap.read_arr σ' a = Heap.read_arr σ a
  /\ Heap.deref σ' a = Heap.deref σ a.
Proof.
  intros Hext (l & Hl & Hall).
  pose proof (extends_arrs_lookup _ _ _ _ Hext Hl) as Hl'.
  assert (Heap.read_arr σ' a = Heap.read_arr σ a) as Hr.
  { unfold Heap.read_arr in *. now rewrite Hl, Hl'. }
  split; [|split; [exact Hr|]].
  - exists l. split; [done|].
    eapply Forall_lt_mono; [|exact Hall]. now apply extends_objs_length.
  - unfold Heap.deref. rewrite Hr. unfold Heap.read_arr in *.
    rewrite Hl. simpl.
    apply map_ext_Forall. eapply Forall_impl; [exact Hall|].
    intros o Ho. now apply extends_read_obj.
Qed.

Lemma Forall_extends_arr_ok (σ σ' : Heap.store) (l : list Heap.loc) :
  Heap.extends σ σ' -> Forall (Heap.arr_ok σ) l ->
  Forall (Heap.arr_ok σ') l /\ map (Heap.deref σ') l = map (Heap.deref σ) l.
Proof.
  intros Hext Hl. split.
  - eapply Forall_impl; [exact Hl|]. intros a Ha.
    now apply (extends_arr_ok _ _ _ Hext Ha).
  - apply map_ext_Forall. eapply Forall_impl; [exact Hl|]. intros a Ha.
    now apply (extends_arr_ok _ _ _ Hext Ha).
Qed.

(** ** What the array operations allocate and denote *)

(** The element produced for [o], with the store after it. *)
Lemma map_elems_cons (f : Shape.t -> option Shape.t) (o : Heap.loc)
    (l : list Heap.loc) (σ : Heap.store) :
  let r := match f (Heap.read_obj σ o) with
           | Some s' => Heap.alloc_obj s' σ
           | None => (o, σ)
           end in
  Heap.map_elems f (o :: l) σ
  = (r.1 :: (Heap.map_elems f l r.2).1, (Heap.map_elems f l r.2).2).
Proof.
  simpl. destruct (f (Heap.read_obj σ o)); simpl;
    now destruct (Heap.map_elems f l _).
Qed.

Lemma map_elems_extends (f : Shape.t -> option Shape.t) (l : list Heap.loc)
    (σ : Heap.store) :
  Heap.extends σ (Heap.map_elems f l σ).2 /\
  Heap.arrs (Heap.map_elems f l σ).2 = Heap.arrs σ.
Proof.
  revert σ. induction l as [|o l IH]; intros σ.
  - split; [apply extends_refl|done].
  - rewrite map_elems_cons. cbv zeta. simpl.
    destruct (f (Heap.read_obj σ o)) as [s'|].
    + destruct (IH (Heap.alloc_obj s' σ).2) as [He Ha]. split.
      * eapply extends_trans; [apply (alloc_obj_extends s' σ)|exact He].
      * now rewrite Ha.
    + apply IH.
Qed.

Lemma map_elems_spec (f : Shape.t -> option Shape.t) (l : list Heap.loc)
    (σ : Heap.store) :
  Forall (fun o => o < length (Heap.objs σ)) l ->
  Forall (fun o => o < length (Heap.objs (Heap.map_elems f l σ).2))
         (Heap.map_elems f l σ).1 /\
  map (Heap.read_obj (Heap.map_elems f l σ).2) (Heap.map_elems f l σ).1
  = map (fun s => default s (f s)) (map (Heap.read_obj σ) l).
Proof.
  revert σ. induction l as [|o l IH]; intros σ Hl; [now split|].
  inversion Hl as [|? ? Ho Hl']; subst.
  rewrite map_elems_cons. cbv zeta. simpl.
  destruct (f (Heap.read_obj σ o)) as [s'|] eqn:Ef.
  - set (σ1 := (Heap.alloc_obj s' σ).2).
    pose proof (alloc_obj_extends s' σ) as He1. fold σ1 in He1.
    assert (Forall (fun o => o < length (Heap.objs σ1)) l) as Hl1.
    { eapply Forall_lt_mono; [|exact Hl']. now apply extends_objs_length. }
    destruct (IH σ1 Hl1) as [Hall Hmap].
    destruct (map_elems_extends f l σ1) as [He2 _].
    assert (length (Heap.objs σ) < length (Heap.objs σ1)) as Hnew.
    { unfold σ1. simpl. rewrite length_app. simpl. lia. }
    split.
    + constructor; [|done].
      pose proof (extends_objs_length _ _ He2). simpl. lia.
    + simpl. f_equal.
      * rewrite (extends_read_obj σ1 _ _ He2 Hnew).
        unfold Heap.read_obj, σ1. simpl.
        now rewrite lookup_total_app_r, Nat.sub_diag by lia.
      * rewrite Hmap. f_equal. apply map_ext_Forall.
        eapply Forall_impl; [exact Hl'|]. intros o' Ho'.
        now apply extends_read_obj.
  - destruct (IH σ Hl') as [Hall Hmap].
    destruct (map_elems_extends f l σ) as [He2 _].
    split.
    + constructor; [|done]. pose proof (extends_objs_length _ _ He2). simpl. lia.
    + simpl. f_equal; [|done]. now apply extends_read_obj.
Qed.

Lemma read_arr_alloc (l : list Heap.loc) (σ : Heap.store) :
  Heap.arrs (Heap.alloc_arr l σ).2 !! (Heap.alloc_arr l σ).1 = Some l.
Proof.
  simpl. now rewrite lookup_app_r, Nat.sub_diag by lia.
Qed.

Lemma array_map_eq (f : Shape.t -> option Shape.t) (a : Heap.loc) (σ : Heap.store) :
  Heap.array_map f a σ
  = Heap.alloc_arr (Heap.map_elems f (Heap.read_arr σ a) σ).1
                   (Heap.map_elems f (Heap.read_arr σ a) σ).2.
Proof. unfold Heap.array_map. now destruct (Heap.map_elems f _ σ). Qed.

Lemma array_map_extends (f : Shape.t -> option Shape.t) (a : Heap.loc)
    (σ : Heap.store) :
  Heap.extends σ (Heap.array_map f a σ).2.
Proof.
  rewrite array_map_eq.
  eapply extends_trans; [apply map_elems_extends|apply alloc_arr_extends].
Qed.

Lemma array_map_spec (f : Shape.t -> option Shape.t) (a : Heap.loc)
    (σ : Heap.store) :
  Heap.arr_ok σ a ->
  Heap.arr_ok (Heap.array_map f a σ).2 (Heap.array_map f a σ).1 /\
  Heap.deref (Heap.array_map f a σ).2 (Heap.array_map f a σ).1
  = map (fun s => default s (f s)) (Heap.deref σ a).
Proof.
  intros (l & Hl & Hall). rewrite array_map_eq. unfold Heap.deref.
  assert (Heap.read_arr σ a = l) as ->.
  { unfold Heap.read_arr. now rewrite Hl. }
  destruct (map_elems_spec f l σ Hall) as [Hall' Hmap].
  split.
  - eexists. split; [apply read_arr_alloc|done].
  - unfold Heap.read_arr. rewrite read_arr_alloc. simpl. exact Hmap.
Qed.

Lemma array_snoc_spec (a o : Heap.loc) (σ : Heap.store) :
  Heap.arr_ok σ a -> o < length (Heap.objs σ) ->
  Heap.arr_ok (Heap.array_snoc a o σ).2 (Heap.array_snoc a o σ).1 /\
  Heap.deref (Heap.array_snoc a o σ).2 (Heap.array_snoc a o σ).1
  = Heap.deref σ a ++ [Heap.read_obj σ o].
Proof.
  intros (l & Hl & Hall) Ho. unfold Heap.array_snoc, Heap.deref.
  assert (Heap.read_arr σ a = l) as ->.
  { unfold Heap.read_arr. now rewrite Hl. }
  split.
  - exists (l ++ [o]). split; [apply read_arr_alloc|].
    apply Forall_app. split; [done|]. now constructor.
  - unfold Heap.read_arr. rewrite read_arr_alloc. simpl.
    now rewrite map_app.
Qed.

(** ** Undo and redo commute with a change of representation *)

Lemma map_state_undoLast {C D} (f : C -> D) (c : AppState C) :
  map_state f (dispatch undoLast c) = dispatch undoLast (map_state f c).
Proof.
  destruct (snoc_cases (history c)) as [Hh|(h & S & Hh)].
  - rewrite (undoLast_empty c Hh).
    rewrite undoLast_empty; [done|]. simpl. now rewrite Hh.
  - rewrite (undoLast_snoc c h S Hh).
    rewrite (undoLast_snoc (map_state f c) (map f h) (f S)).
    + unfold map_state; simpl. now rewrite map_app.
    + simpl. now rewrite Hh, map_app.
Qed.

Lemma map_state_redoLast {C D} (f : C -> D) (c : AppState C) :
  map_state f (dispatch redoLast c) = dispatch redoLast (map_state f c).
Proof.
  destruct (snoc_cases (redoStack c)) as [Hr|(rs & S & Hr)].
  - rewrite (redoLast_empty c Hr).
    rewrite redoLast_empty; [done|]. simpl. now rewrite Hr.
  - rewrite (redoLast_snoc c rs S Hr).
    rewrite (redoLast_snoc (map_state f c) (map f rs) (f S)).
    + unfold map_state; simpl. now rewrite map_app.
    + simpl. now rewrite Hr, map_app.
Qed.

(** ** One step in the store *)

Lemma setShapes_m_eq (f : Heap.loc -> Heap.M Heap.loc) (h : Heap.HState) :
  Heap.setShapes_m f h
  = Heap.mkH (f (shapes (Heap.cells h)) (Heap.sigma h)).2
             (setShapes (f (shapes (Heap.cells h)) (Heap.sigma h)).1 (Heap.cells h)).
Proof. unfold Heap.setShapes_m. now destruct (f _ _). Qed.

Lemma push_snoc_eq (s : Shape.t) (h : Heap.HState) :
  let c := Heap.cells h in
  let o := (Heap.alloc_obj s (Heap.sigma h)).1 in
  let σ1 := (Heap.alloc_obj s (Heap.sigma h)).2 in
  Heap.push_snoc s h
  = Heap.mkH (Heap.array_snoc (shapes c) o σ1).2
             (mkState (Heap.array_snoc (shapes c) o σ1).1
                      (selectedId c) (drawingType c)
                      (lineStart c) (strokeColor c) (strokeWidth c) (dashStyle c)
                      (fillColor c) (history c ++ [shapes c]) []).
Proof. reflexivity. Qed.

Lemma alloc_obj_spec (s : Shape.t) (σ : Heap.store) :
  (Heap.alloc_obj s σ).1 < length (Heap.objs (Heap.alloc_obj s σ).2) /\
  Heap.read_obj (Heap.alloc_obj s σ).2 (Heap.alloc_obj s σ).1 = s.
Proof.
  simpl. split; [rewrite length_app; simpl; lia|].
  unfold Heap.read_obj. simpl.
  now rewrite lookup_total_app_r, Nat.sub_diag by lia.
Qed.

Lemma array_snoc_extends (a o : Heap.loc) (σ : Heap.store) :
  Heap.extends σ (Heap.array_snoc a o σ).2.
Proof. apply alloc_arr_extends. Qed.

Lemma push_snoc_extends (s : Shape.t) (h : Heap.HState) :
  Heap.extends (Heap.sigma h) (Heap.sigma (Heap.push_snoc s h)).
Proof.
  rewrite push_snoc_eq. cbv zeta. unfold Heap.sigma at 2.
  eapply extends_trans; [apply alloc_obj_extends|apply array_snoc_extends].
Qed.

Lemma push_snoc_spec (s : Shape.t) (h : Heap.HState) :
  Heap.wf h ->
  Heap.wf (Heap.push_snoc s h) /\
  Heap.abs (Heap.push_snoc s h)
  = (pushToHistory (Heap.abs h) >>> setShapes_fn (fun prev => prev ++ [s])) (Heap.abs h).
Proof.
  intros (Hs & Hh & Hr).
  pose proof (push_snoc_extends s h) as Hext.
  rewrite push_snoc_eq in *. cbv zeta in *.
  destruct (alloc_obj_spec s (Heap.sigma h)) as [Ho Hread].
  pose proof (alloc_obj_extends s (Heap.sigma h)) as He1.
  set (o := (Heap.alloc_obj s (Heap.sigma h)).1) in *.
  set (σ1 := (Heap.alloc_obj s (Heap.sigma h)).2) in *.
  destruct (extends_arr_ok _ _ _ He1 Hs) as (Hs1 & _ & Hd1).
  destruct (array_snoc_spec (shapes (Heap.cells h)) o σ1 Hs1 Ho) as [Hok Hd2].
  set (a' := (Heap.array_snoc (shapes (Heap.cells h)) o σ1).1) in *.
  set (σ2 := (Heap.array_snoc (shapes (Heap.cells h)) o σ1).2) in *.
  unfold Heap.sigma at 2 in Hext.
  destruct (extends_arr_ok _ _ _ Hext Hs) as (Hs2 & _ & Hd).
  destruct (Forall_extends_arr_ok _ _ _ Hext Hh) as (Hh2 & Hhd).
  split.
  - split; [|split]; unfold Heap.sigma, Heap.cells, shapes, history, redoStack.
    + exact Hok.
    + now apply Forall_snoc.
    + constructor.
  - cbv beta delta [Heap.abs map_state and_then pushToHistory setShapes_fn
                      setHistory_fn setRedoStack setRedoStack_fn].
    cbn [Heap.sigma Heap.cells shapes selectedId drawingType lineStart strokeColor
         strokeWidth dashStyle fillColor history redoStack map].
    f_equal.
    + now rewrite Hd2, Hd1, Hread.
    + rewrite map_app. simpl. now rewrite Hhd, Hd.
Qed.

(** [setShapes(prev => prev.map(...))] *)
Lemma set_map_extends (f : Shape.t -> option Shape.t) (h : Heap.HState) :
  Heap.extends (Heap.sigma h) (Heap.sigma (Heap.setShapes_m (Heap.array_map f) h)).
Proof. rewrite setShapes_m_eq. apply array_map_extends. Qed.

Lemma set_map_spec (f : Shape.t -> option Shape.t) (h : Heap.HState) :
  Heap.wf h ->
  Heap.wf (Heap.setShapes_m (Heap.array_map f) h) /\
  Heap.abs (Heap.setShapes_m (Heap.array_map f) h)
  = setShapes_fn (fun prev => map (fun s => default s (f s)) prev) (Heap.abs h).
Proof.
  intros (Hs & Hh & Hr).
  pose proof (set_map_extends f h) as Hext.
  rewrite setShapes_m_eq in *.
  destruct (array_map_spec f _ _ Hs) as [Hok Hd].
  set (a' := (Heap.array_map f (shapes (Heap.cells h)) (Heap.sigma h)).1) in *.
  set (σ' := (Heap.array_map f (shapes (Heap.cells h)) (Heap.sigma h)).2) in *.
  unfold Heap.sigma at 2 in Hext.
  destruct (Forall_extends_arr_ok _ _ _ Hext Hh) as (Hh2 & Hhd).
  destruct (Forall_extends_arr_ok _ _ _ Hext Hr) as (Hr2 & Hrd).
  split.
  - now split; [|split].
  - cbv beta delta [Heap.abs map_state setShapes setShapes_fn].
    cbn [Heap.sigma Heap.cells shapes selectedId drawingType lineStart strokeColor
         strokeWidth dashStyle fillColor history redoStack].
    now rewrite Hd, Hhd, Hrd.
Qed.

Lemma wf_lift_push (h : Heap.HState) :
  Heap.wf h ->
  Heap.wf (Heap.lift (pushToHistory (Heap.cells h)) h) /\
  Heap.abs (Heap.lift (pushToHistory (Heap.cells h)) h)
  = pushToHistory (Heap.abs h) (Heap.abs h).
Proof.
  intros (Hs & Hh & Hr). split.
  - split; [done|split]; simpl; [now apply Forall_snoc|constructor].
  - unfold Heap.abs, map_state. simpl. now rewrite map_app.
Qed.

(** Every event leaves what is in the store where it is. *)
Lemma hstep_extends (e : Event) (h : Heap.HState) :
  Heap.extends (Heap.sigma h) (Heap.sigma (Heap.hstep e h)).
Proof.
  destruct e; try apply extends_refl.
  - unfold Heap.hstep, Heap.hdispatch; simpl. unfold Heap.createShape.
    destruct pointer as [P|]; [|apply extends_refl].
    destruct (decide (drawingType (Heap.cells h) = line)).
    + destruct (lineStart (Heap.cells h)) as [S|]; [|apply extends_refl].
      apply (push_snoc_extends (line_from (Heap.cells h) uuid S P) h).
    + apply (push_snoc_extends
               (if decide (drawingType (Heap.cells h) = rectangle)
                then rect_at (Heap.cells h) uuid P
                else circle_at (Heap.cells h) uuid P) h).
  - apply (set_map_extends _ (Heap.lift (setSelectedId (Some id)) h)).
  - apply (set_map_extends _ (Heap.lift (pushToHistory (Heap.cells h)) h)).
Qed.

Lemma hrun_extends (es : list Event) (h : Heap.HState) :
  Heap.extends (Heap.sigma h) (Heap.sigma (Heap.hrun es h)).
Proof.
  revert h. induction es as [|e es IH]; intros h; [apply extends_refl|].
  change (Heap.hrun (e :: es) h) with (Heap.hrun es (Heap.hstep e h)).
  eapply extends_trans; [apply hstep_extends|apply IH].
Qed.

(** The handlers over the store do what the handlers over values do. *)
Lemma hstep_refines (e : Event) (h : Heap.HState) :
  Heap.wf h ->
  Heap.wf (Heap.hstep e h) /\ Heap.abs (Heap.hstep e h) = step e (Heap.abs h).
Proof.
  intros Hwf. destruct e; try (split; [exact Hwf|reflexivity]).
  - (* createShape *)
    unfold Heap.hstep, Heap.hdispatch, step, dispatch; simpl.
    unfold Heap.createShape, createShape.
    destruct pointer as [P|]; [|now split].
    change (drawingType (Heap.abs h)) with (drawingType (Heap.cells h)).
    change (lineStart (Heap.abs h)) with (lineStart (Heap.cells h)).
    destruct (decide (drawingType (Heap.cells h) = line)).
    + destruct (lineStart (Heap.cells h)) as [S|]; [|now split].
      destruct (push_snoc_spec (line_from (Heap.cells h) uuid S P) h Hwf) as [Hw Ha].
      split; [exact Hw|].
      change (Heap.abs (Heap.lift (setLineStart None)
                (Heap.push_snoc (line_from (Heap.cells h) uuid S P) h))
              = setLineStart None
                  ((pushToHistory (Heap.abs h) >>>
                    setShapes_fn (fun prev => prev ++ [line_from (Heap.abs h) uuid S P]))
                   (Heap.abs h))).
      change (line_from (Heap.abs h) uuid S P) with (line_from (Heap.cells h) uuid S P).
      now rewrite <- Ha.
    + set (s := if decide (drawingType (Heap.cells h) = rectangle)
                then rect_at (Heap.cells h) uuid P
                else circle_at (Heap.cells h) uuid P).
      destruct (push_snoc_spec s h Hwf) as [Hw Ha].
      split; [exact Hw|].
      transitivity (setSelectedId (Some uuid) (Heap.abs (Heap.push_snoc s h)));
        [reflexivity|].
      rewrite Ha. unfold s.
      now destruct (decide (drawingType (Heap.cells h) = rectangle)).
  - (* handleSelect *)
    apply (set_map_spec
             (fun shape => Some (with_isSelected (String.eqb (Shape.id shape) id) shape))
             (Heap.lift (setSelectedId (Some id)) h) Hwf).
  - (* updateShape *)
    destruct (wf_lift_push h Hwf) as [Hw Ha].
    destruct (set_map_spec
                (fun shape => if String.eqb (Shape.id shape) id
                              then Some (spread shape updatedProps) else None)
                _ Hw) as [Hw' Ha'].
    split; [exact Hw'|].
    unfold Heap.hstep, Heap.hdispatch, Heap.hhandler, Heap.updateShape, Heap.hseq.
    rewrite Ha', Ha.
    unfold step, dispatch, handler, updateShape, and_then, setShapes_fn.
    f_equal. apply map_ext. intros s.
    now destruct (String.eqb (Shape.id s) id).
  - (* undoLast *)
    split.
    + destruct Hwf as (Hs & Hh & Hr).
      unfold Heap.hstep, Heap.hdispatch; simpl. unfold undoLast.
      destruct (last_elem (history (Heap.cells h))) as [prev|] eqn:E; [|done].
      destruct (Forall_last_elem _ _ _ Hh E) as [Hp Hh'].
      split; [|split]; simpl; try done. now apply Forall_snoc.
    + apply (map_state_undoLast (Heap.deref (Heap.sigma h)) (Heap.cells h)).
  - (* redoLast *)
    split.
    + destruct Hwf as (Hs & Hh & Hr).
      unfold Heap.hstep, Heap.hdispatch; simpl. unfold redoLast.
      destruct (last_elem (redoStack (Heap.cells h))) as [next|] eqn:E; [|done].
      destruct (Forall_last_elem _ _ _ Hr E) as [Hp Hr'].
      split; [|split]; simpl; try done. now apply Forall_snoc.
    + apply (map_state_redoLast (Heap.deref (Heap.sigma h)) (Heap.cells h)).
Qed.

Lemma hrun_refines (es : list Event) (h : Heap.HState) :
  Heap.wf h ->
  Heap.wf (Heap.hrun es h) /\ Heap.abs (Heap.hrun es h) = run es (Heap.abs h).
Proof.
  revert h. induction es as [|e es IH]; intros h Hwf; [now split|].
  change (Heap.hrun (e :: es) h) with (Heap.hrun es (Heap.hstep e h)).
  change (run (e :: es) (Heap.abs h)) with (run es (step e (Heap.abs h))).
  destruct (hstep_refines e h Hwf) as [Hw Ha].
  destruct (IH _ Hw) as [Hw' Ha']. now rewrite <- Ha.
Qed.

(** ** Undoing several edits *)

Lemma undo_iter {C} (rest : list C) (st : AppState C) (pre : list C) (a : C) :
  history st = pre ++ a :: rest ->
  shapes (Nat.iter (S (length rest)) (dispatch undoLast) st) = a /\
  history (Nat.iter (S (length rest)) (dispatch undoLast) st) = pre.
Proof.
  revert st. induction rest as [|b rest IH] using rev_ind; intros st Hh.
  - simpl. now rewrite (undoLast_snoc st pre a Hh).
  - rewrite length_app, Nat.add_comm. simpl length.
    change (1 + length rest) with (S (length rest)).
    rewrite Nat.iter_succ_r. apply IH.
    rewrite (undoLast_snoc st (pre ++ a :: rest) b); [done|].
    now rewrite Hh, <- app_assoc.
Qed.

Lemma hrun_undo (n : nat) (h : Heap.HState) :
  Heap.hrun (replicate n Undo) h
  = Heap.mkH (Heap.sigma h) (Nat.iter n (dispatch undoLast) (Heap.cells h)).
Proof.
  revert h. induction n as [|n IH]; intros h; [now destruct h|].
  change (Heap.hrun (replicate (S n) Undo) h)
    with (Heap.hrun (replicate n Undo) (Heap.hstep Undo h)).
  rewrite IH, Nat.iter_succ_r. reflexivity.
Qed.

(** ** Edits only push onto the undo stack *)

Lemma hstep_edit_history (e : Event) (h : Heap.HState) :
  Heap.is_edit e = true ->
  (history (Heap.cells (Heap.hstep e h)) = history (Heap.cells h) /\
   (forall pointer uuid, e = MouseDown pointer uuid ->
      Heap.deref (Heap.sigma (Heap.hstep e h)) (shapes (Heap.cells (Heap.hstep e h)))
      = Heap.deref (Heap.sigma h) (shapes (Heap.cells h))))
  \/ history (Heap.cells (Heap.hstep e h))
     = history (Heap.cells h) ++ [shapes (Heap.cells h)].
Proof.
  intros He. destruct e; try discriminate He; try (left; split; [reflexivity|discriminate]).
  - unfold Heap.hstep, Heap.hdispatch; simpl. unfold Heap.createShape.
    destruct pointer as [P|]; [|now left].
    destruct (decide (drawingType (Heap.cells h) = line)).
    + destruct (lineStart (Heap.cells h)) as [S|]; [now right|now left].
    + now right.
  - left. split; [|discriminate].
    unfold Heap.hstep, Heap.hdispatch; simpl. unfold Heap.handleSelect, Heap.hseq.
    now rewrite setShapes_m_eq.
  - right.
    unfold Heap.hstep, Heap.hdispatch; simpl. unfold Heap.updateShape, Heap.hseq.
    now rewrite setShapes_m_eq.
Qed.

Lemma hrun_edit_history (es : list Event) (h : Heap.HState) :
  Forall (fun e => Heap.is_edit e = true) es ->
  exists rest, history (Heap.cells (Heap.hrun es h)) = history (Heap.cells h) ++ rest.
Proof.
  revert h. induction es as [|e es IH]; intros h Hes.
  - exists []. now rewrite app_nil_r.
  - inversion Hes as [|? ? He Hes']; subst.
    change (Heap.hrun (e :: es) h) with (Heap.hrun es (Heap.hstep e h)).
    destruct (IH (Heap.hstep e h) Hes') as [rest Hrest]. rewrite Hrest.
    destruct (hstep_edit_history e h He) as [[-> _]| ->]; [eauto|].
    rewrite <- app_assoc. eauto.
Qed.

Lemma hstep_mutating (e : Event) (h : Heap.HState) :
  Heap.wf h -> mutating (Heap.abs h) e ->
  history (Heap.cells (Heap.hstep e h))
  = history (Heap.cells h) ++ [shapes (Heap.cells h)].
Proof.
  intros Hwf Hm.
  assert (Heap.is_edit e = true) as He by now destruct e.
  destruct (hstep_edit_history e h He) as [[_ Hsame]|Hpush]; [|done].
  destruct e; try done.
  - exfalso. apply Hm.
    destruct (hstep_refines (MouseDown pointer uuid) h Hwf) as [_ <-].
    apply (Hsame pointer uuid eq_refl).
  - destruct (hstep_edit_history (UpdateShape id updatedProps) h He)
      as [[Habs _]|Hpush]; [|done].
    exfalso. apply (f_equal length) in Habs. revert Habs.
    unfold Heap.hstep, Heap.hdispatch; simpl.
    unfold Heap.updateShape, Heap.hseq. rewrite setShapes_m_eq. simpl.
    rewrite length_app. simpl. lia.
Qed.

(** ** C9: a snapshot is never altered *)

(** C9: let a mutating event push the live array [a], which denotes the
    collection [S], onto the undo stack, and let any creations, selections
    and geometry updates follow.  The entry that was pushed is the reference
    [a] itself, no copy; it is still at its place in the undo stack; the
    array at [a] and the collection it denotes are what they were at the
    moment of capture; and undoing back to this entry makes [S] the live
    collection, in the store and, since the handlers over the store refine
    those over values, in the value model. *)
Theorem snapshot_unaltered (h : Heap.HState) (e : Event) (es : list Event) :
  Heap.wf h ->
  mutating (Heap.abs h) e ->
  Forall (fun e => Heap.is_edit e = true) es ->
  let a := shapes (Heap.cells h) in
  let S := Heap.deref (Heap.sigma h) a in
  let k := length (history (Heap.cells h)) in
  let h1 := Heap.hstep e h in
  let h2 := Heap.hrun es h1 in
  let n := length (history (Heap.cells h2)) - k in
  history (Heap.cells h1) = history (Heap.cells h) ++ [a] /\
  history (Heap.cells h2) !! k = Some a /\
  Heap.arrs (Heap.sigma h2) !! a = Heap.arrs (Heap.sigma h) !! a /\
  Heap.deref (Heap.sigma h2) a = S /\
  history (Heap.abs h2) !! k = Some S /\
  shapes (Heap.abs (Heap.hrun (replicate n Undo) h2)) = S /\
  shapes (run (replicate n Undo) (run es (step e (Heap.abs h)))) = S.
Proof.
  intros Hwf Hm Hes a S k h1 h2 n.
  pose proof (hstep_mutating e h Hwf Hm) as Hpush. fold h1 a in Hpush.
  destruct (hrun_edit_history es h1 Hes) as [rest Hrest]. fold h2 in Hrest.
  rewrite Hpush, <- app_assoc in Hrest. simpl in Hrest.
  assert (Heap.extends (Heap.sigma h) (Heap.sigma h2)) as Hext.
  { eapply extends_trans; [apply (hstep_extends e h)|apply hrun_extends]. }
  destruct Hwf as (Hs & Hh & Hr).
  destruct (extends_arr_ok _ _ _ Hext Hs) as (Hs2 & _ & Hd).
  fold a in Hs, Hs2, Hd. fold S in Hd.
  assert (history (Heap.cells h2) !! k = Some a) as Hk.
  { rewrite Hrest. rewrite lookup_app_r by (unfold k; lia).
    unfold k. now rewrite Nat.sub_diag. }
  assert (n = Datatypes.S (length rest)) as Hn.
  { unfold n. rewrite Hrest, length_app. simpl. unfold k. lia. }
  assert (shapes (Heap.abs (Heap.hrun (replicate n Undo) h2)) = S) as Hundo.
  { rewrite hrun_undo, Hn.
    change (Heap.deref (Heap.sigma h2)
              (shapes (Nat.iter (Datatypes.S (length rest)) (dispatch undoLast)
                                (Heap.cells h2))) = S).
    destruct (undo_iter rest (Heap.cells h2) _ a Hrest) as [-> _].
    exact Hd. }
  repeat split.
  - exact Hpush.
  - exact Hk.
  - destruct Hs as (l & Hl & _). rewrite Hl.
    now apply (extends_arrs_lookup _ _ _ _ Hext).
  - exact Hd.
  - change (map (Heap.deref (Heap.sigma h2)) (history (Heap.cells h2)) !! k = Some S).
    rewrite list_lookup_fmap, Hk. simpl. now rewrite Hd.
  - exact Hundo.
  - rewrite <- Hundo.
    destruct (hstep_refines e h (conj Hs (conj Hh Hr))) as [Hw1 <-]. fold h1.
    destruct (hrun_refines es h1 Hw1) as [Hw2 <-]. fold h2.
    now destruct (hrun_refines (replicate n Undo) h2 Hw2) as [_ <-].
Qed.

Lemma hinitial_wf : Heap.wf Heap.hinitial.
Proof.
  split; [|split; constructor].
  exists []. split; [reflexivity|constructor].
Qed.

(** Every state that the component reaches in the store is well formed and
    denotes the state that the value model reaches. *)
Lemma hrun_initial (es : list Event) :
  Heap.wf (Heap.hrun es Heap.hinitial) /\
  Heap.abs (Heap.hrun es Heap.hinitial) = run es initial.
Proof. apply (hrun_refines es Heap.hinitial hinitial_wf). Qed.

Lemma snapshot_unaltered_witness :
  shapes (run [Undo; Undo] (run later_edits (step drag_a (Heap.abs one_rect))))
  = [rect_at initial "a" (Point.mk 10%float 10%float)].
Proof.
  assert (Heap.wf one_rect) as Hwf.
  { split; [|split].
    - exists [0]. split; [reflexivity|]. repeat constructor.
    - repeat constructor. exists []. split; [reflexivity|constructor].
    - constructor. }
  assert (mutating (Heap.abs one_rect) drag_a) as Hm by exact I.
  assert (Forall (fun e => Heap.is_edit e = true) later_edits) as Hes
    by (repeat constructor).
  destruct (snapshot_unaltered one_rect drag_a later_edits Hwf Hm Hes)
    as (_ & _ & _ & _ & _ & _ & H).
  exact H.
Defined.

(** * Further properties of the component *)

(** ** Redo, and redo followed by undo *)

Lemma undo_redo_snoc {C} (st : AppState C) (rs : list C) (S : C) :
  redoStack st = rs ++ [S] -> dispatch undoLast (dispatch redoLast st) = st.
Proof.
  intros Hr. rewrite (redoLast_snoc _ _ _ Hr).
  erewrite undoLast_snoc by reflexivity.
  destruct st; simpl in *. now subst.
Qed.

(** X1: redo with an empty redo stack changes nothing; otherwise it pops the
    top entry [S], pushes the live collection onto the undo stack and makes
    [S] the live collection; and when the redo stack is not empty, or the undo
    stack is empty, redo followed by undo restores the whole state. *)
Theorem redo_then_undo (st : State) :
  (redoStack st = [] -> step Redo st = st) /\
  (forall rs S, redoStack st = rs ++ [S] ->
     step Redo st =
       mkState S (selectedId st) (drawingType st) (lineStart st)
               (strokeColor st) (strokeWidth st) (dashStyle st) (fillColor st)
               (history st ++ [shapes st]) rs) /\
  (redoStack st <> [] \/ history st = [] -> step Undo (step Redo st) = st).
Proof.
  split; [apply redoLast_empty|]. split; [apply redoLast_snoc|].
  intros Hne. unfold step; simpl.
  destruct (snoc_cases (redoStack st)) as [Hr|(rs & S & Hr)].
  - destruct Hne as [Hne|Hh]; [done|].
    rewrite (redoLast_empty _ Hr). now apply undoLast_empty.
  - now apply (undo_redo_snoc _ rs S).
Qed.

Lemma redo_then_undo_witness :
  step Undo (step Redo after_create_undo) = after_create_undo.
Proof.
  apply (redo_then_undo after_create_undo). left. vm_compute. discriminate.
Defined.

(** ** The timeline *)

Lemma timeline_undoLast {C} (st : AppState C) :
  timeline (dispatch undoLast st) = timeline st.
Proof.
  destruct (snoc_cases (history st)) as [Hh|(h & S & Hh)].
  - now rewrite (undoLast_empty _ Hh).
  - rewrite (undoLast_snoc _ _ _ Hh). unfold timeline. simpl.
    rewrite Hh, rev_unit. simpl. now rewrite <- !app_assoc.
Qed.

Lemma timeline_redoLast {C} (st : AppState C) :
  timeline (dispatch redoLast st) = timeline st.
Proof.
  destruct (snoc_cases (redoStack st)) as [Hr|(rs & S & Hr)].
  - now rewrite (redoLast_empty _ Hr).
  - rewrite (redoLast_snoc _ _ _ Hr). unfold timeline. simpl.
    rewrite Hr, rev_unit. simpl. now rewrite <- !app_assoc.
Qed.

(** X2: undo and redo only move a cursor: the sequence made of the undo
    stack, the live collection and the reversed redo stack is the same after
    any sequence of undos and redos, and so is the number of stored
    collections. *)
Theorem undo_redo_keep_timeline (es : list Event) (st : State) :
  Forall (fun e => is_undo_redo e = true) es ->
  timeline (run es st) = timeline st /\
  length (history (run es st)) + length (redoStack (run es st))
  = length (history st) + length (redoStack st).
Proof.
  intros Hes.
  assert (timeline (run es st) = timeline st) as Ht.
  { revert st. induction es as [|e es IH]; intros st; [done|].
    inversion Hes as [|? ? He Hes']; subst.
    change (run (e :: es) st) with (run es (step e st)).
    rewrite (IH Hes'). destruct e; try discriminate He.
    - apply timeline_undoLast.
    - apply timeline_redoLast. }
  split; [exact Ht|].
  apply (f_equal length) in Ht. unfold timeline in Ht.
  rewrite !length_app, !length_rev in Ht. simpl in Ht. lia.
Qed.

Lemma undo_redo_keep_timeline_witness :
  timeline (run [Undo; Undo; Undo; Redo] two_rects) = timeline two_rects.
Proof.
  apply (undo_redo_keep_timeline [Undo; Undo; Undo; Redo] two_rects).
  repeat constructor.
Defined.

(** ** Undoing an edit *)

Lemma mutating_push (st : State) (e : Event) :
  mutating st e ->
  history (step e st) = history st ++ [shapes st] /\ redoStack (step e st) = [].
Proof.
  intros Hm. destruct e; try (now simpl in Hm).
  unfold mutating in Hm.
  destruct (createShape_cases st pointer uuid)
    as [Heq|[(P & _ & _ & _ & Heq)|(s & _ & _ & _ & Hh & Hr)]].
  - now rewrite Heq in Hm.
  - rewrite Heq in Hm. now destruct st.
  - done.
Qed.

(** X3: after an event that mutates the collection, undo brings back the
    collection and the undo stack found before the event and leaves the new
    collection as the only redo entry; the redo that follows re-establishes
    the state after the event; and the event cuts the timeline at the live
    collection: whatever could be redone before it is gone. *)
Theorem undo_after_mutation (st : State) (e : Event) :
  mutating st e ->
  shapes (step Undo (step e st)) = shapes st /\
  history (step Undo (step e st)) = history st /\
  redoStack (step Undo (step e st)) = [shapes (step e st)] /\
  step Redo (step Undo (step e st)) = step e st /\
  timeline (step e st) = history st ++ [shapes st; shapes (step e st)].
Proof.
  intros Hm. destruct (mutating_push st e Hm) as [Hh Hr].
  pose proof (undoLast_snoc (step e st) _ _ Hh) as Hu.
  change (dispatch undoLast (step e st)) with (step Undo (step e st)) in Hu.
  split; [now rewrite Hu|]. split; [now rewrite Hu|].
  split; [rewrite Hu; simpl; now rewrite Hr|]. split.
  - apply (redo_undo_snoc (step e st) _ _ Hh).
  - unfold timeline. rewrite Hh, Hr. simpl. now rewrite <- app_assoc.
Qed.

Lemma undo_after_mutation_witness :
  shapes (step Undo (step drag_a two_rects)) = shapes two_rects.
Proof. apply (undo_after_mutation two_rects drag_a). exact I. Defined.

(** ** What undo and redo do not restore *)

Lemma controls_undo_redo (st : State) (e : Event) :
  is_undo_redo e = true -> controls (step e st) = controls st.
Proof.
  destruct e; try discriminate; intros _; unfold step, dispatch; simpl.
  - unfold undoLast. now destruct (last_elem (history st)).
  - unfold redoLast. now destruct (last_elem (redoStack st)).
Qed.

(** X4: undo and redo restore collections only: [selectedId], the pending
    start point and the tool configuration stay as they are.  Hence after a
    rectangle or circle with a fresh id is placed and the placement undone,
    the collection is the old one while [selectedId] still holds the id of
    the shape that is gone. *)
Theorem undo_keeps_selectedId (st : State) (P : Point.t) (uuid : string) :
  (forall e, is_undo_redo e = true -> controls (step e st) = controls st) /\
  (drawingType st <> line -> uuid ∉ ids (shapes st) ->
     shapes (step Undo (step (MouseDown (Some P) uuid) st)) = shapes st /\
     selectedId (step Undo (step (MouseDown (Some P) uuid) st)) = Some uuid /\
     uuid ∉ ids (shapes (step Undo (step (MouseDown (Some P) uuid) st)))).
Proof.
  split; [intros e; apply controls_undo_redo|].
  intros Hl Hfresh.
  assert (selectedId (step (MouseDown (Some P) uuid) st) = Some uuid) as Hsel.
  { unfold step, dispatch; simpl. unfold createShape.
    now destruct (decide (drawingType st = line)). }
  assert (history (step (MouseDown (Some P) uuid) st) = history st ++ [shapes st]) as Hh.
  { unfold step, dispatch; simpl. unfold createShape.
    now destruct (decide (drawingType st = line)). }
  pose proof (undoLast_snoc _ _ _ Hh) as Hu.
  change (dispatch undoLast (step (MouseDown (Some P) uuid) st))
    with (step Undo (step (MouseDown (Some P) uuid) st)) in Hu.
  rewrite Hu. split; [reflexivity|]. split; [exact Hsel|exact Hfresh].
Qed.

Lemma undo_keeps_selectedId_witness :
  selectedId after_create_undo = Some "a" /\ shapes after_create_undo = [].
Proof.
  destruct (undo_keeps_selectedId initial (Point.mk 10%float 10%float) "a") as [_ H].
  destruct H as (Hs & Hi & _).
  - discriminate.
  - apply (bool_decide_unpack _). vm_compute. exact I.
  - split; [exact Hi|exact Hs].
Defined.

(** ** Identifiers *)

(** X5: in every reachable state the ids of the live collection are pairwise
    distinct, and so are the ids of every collection on the undo and redo
    stacks. *)
Theorem reachable_ids_unique (st : State) :
  reachable st ->
  NoDup (ids (shapes st)) /\
  Forall (fun c => NoDup (ids c)) (history st) /\
  Forall (fun c => NoDup (ids c)) (redoStack st).
Proof.
  intros Hr. destruct (reachable_inv st Hr) as ((Hs & _) & Hh & Hrs).
  split; [exact Hs|].
  split; (eapply Forall_impl; [eassumption|]; now intros c [Hc _]).
Qed.

Lemma reachable_two_rects : reachable two_rects.
Proof.
  unfold two_rects, run, foldl.
  apply reachable_step; [|apply (bool_decide_unpack _); vm_compute; exact I].
  apply reachable_step; [|apply (bool_decide_unpack _); vm_compute; exact I].
  apply reachable_initial.
Defined.

Lemma reachable_ids_unique_witness : NoDup (ids (shapes two_rects)).
Proof. apply (reachable_ids_unique two_rects). exact reachable_two_rects. Defined.

(** ** Placing shapes *)

(** X6: a click on the canvas never touches the shapes that exist: the old
    collection is a prefix of the new one, which has at most one shape more.
    The collection changes exactly when the pointer position is known and the
    click is not the first click of a line; without a pointer position the
    whole state is unchanged; and the tool configuration is never changed. *)
Theorem createShape_appends (st : State) (pointer : option Point.t) (uuid : string) :
  shapes st `prefix_of` shapes (step (MouseDown pointer uuid) st) /\
  length (shapes (step (MouseDown pointer uuid) st)) <= S (length (shapes st)) /\
  (shapes (step (MouseDown pointer uuid) st) <> shapes st <->
   is_Some pointer /\ (drawingType st <> line \/ is_Some (lineStart st))) /\
  (pointer = None -> step (MouseDown pointer uuid) st = st) /\
  (drawingType (step (MouseDown pointer uuid) st), strokeColor (step (MouseDown pointer uuid) st),
   strokeWidth (step (MouseDown pointer uuid) st), dashStyle (step (MouseDown pointer uuid) st),
   fillColor (step (MouseDown pointer uuid) st))
  = (drawingType st, strokeColor st, strokeWidth st, dashStyle st, fillColor st).
Proof.
  assert (forall (l : Collection) s, l ++ [s] <> l) as Hneq.
  { intros l s H. apply (f_equal length) in H. rewrite length_app in H. simpl in H. lia. }
  unfold step, dispatch; simpl. unfold createShape, skip.
  destruct pointer as [P|];
    [destruct (decide (drawingType st = line)) as [Hl|Hl];
     [destruct (lineStart st) as [S0|] eqn:Hs|]|]; simpl.
  all: split; [first [apply prefix_app_r; reflexivity|reflexivity]|].
  all: split; [rewrite ?length_app; simpl; lia|].
  all: split; [|split; [try done|reflexivity]].
  - split; [eauto|intros _; apply Hneq].
  - split; [done|]. intros [_ [H|[x H]]]; done.
  - split; [eauto|intros _; apply Hneq].
  - split; [done|]. intros [[x H] _]. done.
Qed.

Lemma createShape_appends_witness :
  step (MouseDown None "c") two_rects = two_rects.
Proof.
  apply (proj1 (proj2 (proj2 (proj2 (createShape_appends two_rects None "c"))))).
  reflexivity.
Defined.

(** ** Selecting twice *)

Lemma with_isSelected_twice (a b : string) (s : Shape.t) :
  with_isSelected (String.eqb (Shape.id (with_isSelected (String.eqb (Shape.id s) a) s)) b)
                  (with_isSelected (String.eqb (Shape.id s) a) s)
  = with_isSelected (String.eqb (Shape.id s) b) s.
Proof. now destruct s. Qed.

(** X7: the last selection wins: selecting [a] and then [b] leaves the state
    that selecting [b] alone leaves; in particular selecting the same shape
    twice is selecting it once. *)
Theorem select_twice (st : State) (a b : string) :
  step (Click b) (step (Click a) st) = step (Click b) st /\
  step (Click a) (step (Click a) st) = step (Click a) st.
Proof.
  assert (forall a b, step (Click b) (step (Click a) st) = step (Click b) st) as H.
  { intros a' b'. unfold step, dispatch; simpl.
    unfold handleSelect, and_then, setSelectedId, setSelectedId_fn, setShapes_fn; simpl.
    f_equal. rewrite map_map. apply map_ext. intros s.
    apply with_isSelected_twice. }
  split; apply H.
Qed.

(** ** The control panel *)

Lemma config_step (st : State) (e : Event) :
  is_config e = true ->
  shapes (step e st) = shapes st /\ history (step e st) = history st /\
  redoStack (step e st) = redoStack st /\ selectedId (step e st) = selectedId st /\
  lineStart (step e st) = lineStart st.
Proof. destruct e; try discriminate; now intros _. Qed.

(** X8: changing the shape kind, the stroke colour or width, the line style
    or the fill colour, and saving, in any number and order, leave every
    existing shape, both history stacks, the selection and the pending start
    point as they are. *)
Theorem config_changes_nothing_drawn (es : list Event) (st : State) :
  Forall (fun e => is_config e = true) es ->
  shapes (run es st) = shapes st /\ history (run es st) = history st /\
  redoStack (run es st) = redoStack st /\ selectedId (run es st) = selectedId st /\
  lineStart (run es st) = lineStart st.
Proof.
  revert st. induction es as [|e es IH]; intros st Hes; [done|].
  inversion Hes as [|? ? He Hes']; subst.
  change (run (e :: es) st) with (run es (step e st)).
  destruct (IH (step e st) Hes') as (-> & -> & -> & -> & ->).
  now apply config_step.
Qed.

Lemma config_changes_nothing_drawn_witness :
  shapes (run [ChangeShape circle; ChangeFillColor "#ff0000"; Save] two_rects)
  = shapes two_rects.
Proof.
  apply (config_changes_nothing_drawn
           [ChangeShape circle; ChangeFillColor "#ff0000"; Save] two_rects).
  repeat constructor.
Defined.

(** ** Geometry updates *)

#[local] Open Scope float_scope.

Lemma spread_geometry_keeps (s : Shape.t) (p : Partial.t) :
  is_geometry p = true -> non_geometry (spread s p) = non_geometry s.
Proof.
  unfold is_geometry. destruct p as [i t st sw d dr sel x y w h r f pts]. simpl.
  destruct i, t, st, sw, d, dr, sel, f; simpl; try done.
Qed.

(** X9: a geometry update keeps the number and the order of the shapes,
    leaves every shape with another id untouched, and changes no id, type,
    style, flag or fill of any shape; a drag of a rectangle or circle sets x
    and y and keeps width, height, radius and points. *)
Theorem updateShape_frame (st : State) (id : string) (p : Partial.t) :
  length (shapes (step (UpdateShape id p) st)) = length (shapes st) /\
  (forall i s, shapes st !! i = Some s -> Shape.id s <> id ->
     shapes (step (UpdateShape id p) st) !! i = Some s) /\
  (is_geometry p = true ->
     map non_geometry (shapes (step (UpdateShape id p) st))
     = map non_geometry (shapes st)) /\
  (forall s node,
     Shape.x (spread s (drag_patch node)) = Some (Node.x node) /\
     Shape.y (spread s (drag_patch node)) = Some (Node.y node) /\
     Shape.width (spread s (drag_patch node)) = Shape.width s /\
     Shape.height (spread s (drag_patch node)) = Shape.height s /\
     Shape.radius (spread s (drag_patch node)) = Shape.radius s /\
     Shape.points (spread s (drag_patch node)) = Shape.points s).
Proof.
  destruct (updateShape_spec st id p) as (Hs & _).
  rewrite Hs. split; [apply length_map|]. split; [|split].
  - intros i s Hi Hne. rewrite list_lookup_fmap, Hi. simpl.
    apply String.eqb_neq in Hne. now rewrite Hne.
  - intros Hg. rewrite map_map. apply map_ext. intros s.
    destruct (String.eqb (Shape.id s) id); [|done].
    now apply spread_geometry_keeps.
  - intros s node. now repeat split.
Qed.

Lemma updateShape_frame_witness :
  map non_geometry (shapes (step drag_a two_rects)) = map non_geometry (shapes two_rects).
Proof. apply (updateShape_frame two_rects "a"). reflexivity. Defined.

Lemma override_override {A} (p q o : option A) :
  implb (present p) (present q) = true -> override q (override p o) = override q o.
Proof. now destruct p, q. Qed.

Lemma spread_spread (s : Shape.t) (p q : Partial.t) :
  is_geometry p = true -> geometry_keys_within p q = true ->
  spread (spread s p) q = spread s q.
Proof.
  intros Hg Hk. unfold geometry_keys_within in Hk.
  repeat (apply andb_true_iff in Hk as [Hk ?]).
  unfold is_geometry in Hg.
  destruct p as [i t st sw d dr sel x y w h r f pts]. simpl in *.
  destruct i, t, st, sw, d, dr, sel, f; simpl in Hg; try discriminate Hg.
  unfold spread. simpl. f_equal; now apply override_override.
Qed.

(** X10: when two geometry updates of the same id follow each other and the
    second patch has every key of the first, the collection is the one that
    the second update alone produces, while the undo stack has received both
    intermediate collections. *)
Theorem later_update_wins (st : State) (id : string) (p q : Partial.t) :
  is_geometry p = true -> geometry_keys_within p q = true ->
  shapes (step (UpdateShape id q) (step (UpdateShape id p) st))
  = shapes (step (UpdateShape id q) st) /\
  history (step (UpdateShape id q) (step (UpdateShape id p) st))
  = history st ++ [shapes st; shapes (step (UpdateShape id p) st)].
Proof.
  intros Hg Hk.
  destruct (updateShape_spec (step (UpdateShape id p) st) id q) as (Hs2 & Hh2 & _).
  destruct (updateShape_spec st id p) as (Hs1 & Hh1 & _).
  destruct (updateShape_spec st id q) as (Hs3 & _).
  split.
  - rewrite Hs2, Hs3, Hs1, map_map. apply map_ext. intros s.
    destruct (String.eqb (Shape.id s) id) eqn:E; [|now rewrite E].
    assert (Shape.id (spread s p) = Shape.id s) as Hid.
    { pose proof (spread_geometry_keeps s p Hg) as H.
      now injection H. }
    rewrite Hid, E. now apply spread_spread.
  - rewrite Hh2, Hh1, <- app_assoc. reflexivity.
Qed.

Lemma later_update_wins_witness :
  shapes (step (UpdateShape "a" (drag_patch (Node.mk 7 8 100 60 1 1)))
            (step drag_a two_rects))
  = shapes (step (UpdateShape "a" (drag_patch (Node.mk 7 8 100 60 1 1))) two_rects).
Proof.
  apply (later_update_wins two_rects "a"); reflexivity.
Defined.

(** ** The bound of the transformer *)

(** X11: [boundBoxFunc] returns one of its two boxes; it returns the new box
    whenever no side of it is below 5; if no side of the old box is below 5
    then no side of the result is; and bounding a box that was already
    bounded changes nothing. *)
Theorem boundBoxFunc_min (oldBox newBox : Box.t) :
  (boundBoxFunc oldBox newBox = oldBox \/ boundBoxFunc oldBox newBox = newBox) /\
  (box_ok newBox = true -> boundBoxFunc oldBox newBox = newBox) /\
  (box_ok oldBox = true -> box_ok (boundBoxFunc oldBox newBox) = true) /\
  boundBoxFunc oldBox (boundBoxFunc oldBox newBox) = boundBoxFunc oldBox newBox.
Proof.
  unfold boundBoxFunc, box_ok.
  destruct (Box.width newBox <? 5) eqn:Ew, (Box.height newBox <? 5) eqn:Eh; simpl.
  all: repeat split; try done; eauto.
  all: try (now destruct (Box.width oldBox <? 5), (Box.height oldBox <? 5)).
  all: now rewrite Ew, Eh.
Qed.

Lemma boundBoxFunc_min_witness :
  boundBoxFunc (Box.mk 10 10 100 60 0) (Box.mk 10 10 4 60 0) = Box.mk 10 10 100 60 0 /\
  boundBoxFunc (Box.mk 10 10 100 60 0) (Box.mk 10 10 50 30 0) = Box.mk 10 10 50 30 0.
Proof.
  split; [reflexivity|].
  apply (proj1 (proj2 (boundBoxFunc_min (Box.mk 10 10 100 60 0) (Box.mk 10 10 50 30 0)))).
  reflexivity.
Defined.

(** ** The render *)

#[local] Close Scope float_scope.

Lemma render_lookup (st : State) (i : nat) (el : Element.t) :
  render st !! i = Some el ->
  exists s, shapes st !! i = Some s /\ el = render_shape st s.
Proof.
  unfold render. rewrite list_lookup_fmap.
  destruct (shapes st !! i) as [s|]; [|done]. intros [= <-]. eauto.
Qed.

Lemma render_shape_fields (st : State) (s : Shape.t) :
  Element.key (render_shape st s) = Shape.id s /\
  Element.props (render_shape st s) = s /\
  Element.onClick (render_shape st s) = handleSelect (Shape.id s) /\
  Element.tag (render_shape st s)
  = match Shape.type s with rectangle => Rect | circle => Circle | line => Line end /\
  Element.ref (render_shape st s)
  = match Shape.type s with
    | line => false
    | _ => is_selectedId (selectedId st) (Shape.id s)
    end.
Proof. unfold render_shape. now destruct (Shape.type s). Qed.

(** X12: the render has one element per shape, in the order of the
    collection, keyed by the id of its shape and carrying the shape as props;
    in a reachable state no two elements have the same key; and an element
    has no [onTransformEnd] exactly when it is a [Line]. *)
Theorem render_one_per_shape (st : State) :
  map Element.key (render st) = ids (shapes st) /\
  map Element.props (render st) = shapes st /\
  (reachable st -> NoDup (map Element.key (render st))) /\
  (forall el, el ∈ render st ->
     Element.tag el = Line <-> Element.onTransformEnd el = None).
Proof.
  assert (map Element.key (render st) = ids (shapes st)) as Hk.
  { unfold render, ids. rewrite map_map. apply map_ext. intros s.
    apply render_shape_fields. }
  split; [exact Hk|]. split; [|split].
  - unfold render. rewrite map_map. rewrite <- (map_id (shapes st)) at 2.
    apply map_ext. intros s. apply render_shape_fields.
  - intros Hr. rewrite Hk. apply (reachable_inv st Hr).
  - intros el Hel. unfold render in Hel.
    apply list_elem_of_fmap in Hel as (s & -> & _).
    unfold render_shape. now destruct (Shape.type s).
Qed.

Lemma render_one_per_shape_witness :
  NoDup (map Element.key (render two_rects)).
Proof. apply (render_one_per_shape two_rects). exact reachable_two_rects. Defined.

Lemma no_ref_without_id (st : State) (c : Collection) (i : string) :
  selectedId st = Some i -> i ∉ ids c ->
  List.filter Element.ref (map (render_shape st) c) = [].
Proof.
  intros Hsel. induction c as [|s c IH]; intros Hn; [done|]. simpl.
  destruct (render_shape_fields st s) as (_ & _ & _ & _ & ->).
  assert (is_selectedId (selectedId st) (Shape.id s) = false) as Hf.
  { rewrite Hsel. simpl. apply String.eqb_neq. intros E. apply Hn. rewrite <- E. left. }
  rewrite Hf. destruct (Shape.type s); apply IH; intros Hin; apply Hn; now right.
Qed.

Lemma ref_count (st : State) (c : Collection) :
  NoDup (ids c) -> length (List.filter Element.ref (map (render_shape st) c)) <= 1.
Proof.
  induction c as [|s c IH]; intros Hnd; simpl; [lia|].
  apply NoDup_cons in Hnd as [Hs Hnd].
  destruct (Element.ref (render_shape st s)) eqn:E; [|now apply IH].
  destruct (render_shape_fields st s) as (_ & _ & _ & _ & Hr). rewrite Hr in E.
  assert (selectedId st = Some (Shape.id s)) as Hsel.
  { destruct (Shape.type s); try discriminate E;
      (destruct (selectedId st) as [i|]; [|discriminate E]);
      simpl in E; apply String.eqb_eq in E; now subst. }
  rewrite (no_ref_without_id st c _ Hsel Hs). simpl. lia.
Qed.

(** X13: [selectedShapeRef] is passed only to a [Rect] or [Circle] whose key
    is [selectedId], never to a [Line]; and when the ids of the collection
    are distinct, as in every reachable state, at most one element
    receives it. *)
Theorem render_ref (st : State) :
  (forall el, el ∈ render st -> Element.ref el = true ->
     Element.tag el <> Line /\ selectedId st = Some (Element.key el)) /\
  (NoDup (ids (shapes st)) ->
     length (List.filter Element.ref (render st)) <= 1) /\
  (reachable st -> length (List.filter Element.ref (render st)) <= 1).
Proof.
  split; [|split].
  - intros el Hel Href. unfold render in Hel.
    apply list_elem_of_fmap in Hel as (s & -> & _).
    destruct (render_shape_fields st s) as (Hk & _ & _ & Ht & Hr).
    rewrite Hk, Ht. rewrite Hr in Href.
    destruct (Shape.type s); try discriminate Href;
      (split; [discriminate|]);
      (destruct (selectedId st) as [i|]; [|discriminate Href]);
      simpl in Href; apply String.eqb_eq in Href; now subst.
  - apply ref_count.
  - intros Hr. apply ref_count. apply (reachable_inv st Hr).
Qed.

Lemma render_ref_witness :
  length (List.filter Element.ref (render two_rects)) <= 1.
Proof. apply (render_ref two_rects). exact reachable_two_rects. Defined.

Lemma createShape_not_line (st : State) (P : Point.t) (uuid : string) :
  drawingType st <> line ->
  exists s, Shape.id s = uuid /\ Shape.type s <> line /\
    shapes (step (MouseDown (Some P) uuid) st) = shapes st ++ [s] /\
    selectedId (step (MouseDown (Some P) uuid) st) = Some uuid.
Proof.
  intros Hl. unfold step, dispatch; simpl. unfold createShape.
  destruct (decide (drawingType st = line)); [done|].
  destruct (decide (drawingType st = rectangle)); eexists; now repeat split.
Qed.

(** X14: after a rectangle or circle with a fresh id has been placed, the
    next render passes [selectedShapeRef] to the element of the new shape,
    the last one, and to no other element. *)
Theorem created_shape_holds_ref (st : State) (P : Point.t) (uuid : string) :
  drawingType st <> line -> uuid ∉ ids (shapes st) ->
  (forall el, el ∈ render (step (MouseDown (Some P) uuid) st) ->
     Element.ref el = true <-> Element.key el = uuid) /\
  (exists el, last (render (step (MouseDown (Some P) uuid) st)) = Some el /\
     Element.key el = uuid /\ Element.ref el = true).
Proof.
  intros Hl Hfresh.
  destruct (createShape_not_line st P uuid Hl) as (s & Hid & Hty & Hs & Hsel).
  set (st' := step (MouseDown (Some P) uuid) st) in *.
  assert (Element.ref (render_shape st' s) = true) as Href.
  { destruct (render_shape_fields st' s) as (_ & _ & _ & _ & ->).
    rewrite Hsel, Hid. simpl. rewrite String.eqb_refl. now destruct (Shape.type s). }
  split.
  - intros el Hel. unfold render in Hel. rewrite Hs in Hel.
    apply list_elem_of_fmap in Hel as (s0 & -> & Hin).
    destruct (render_shape_fields st' s0) as (Hk & _ & _ & _ & Hr).
    rewrite Hk. apply elem_of_app in Hin as [Hin|Hin].
    + assert (Shape.id s0 <> uuid) as Hne.
      { intros E. apply Hfresh. rewrite <- E. unfold ids.
        apply list_elem_of_fmap. eauto. }
      split; [|done]. rewrite Hr, Hsel. simpl.
      apply String.eqb_neq in Hne. rewrite Hne. now destruct (Shape.type s0).
    + apply list_elem_of_singleton in Hin. subst s0. now split.
  - exists (render_shape st' s). unfold render. rewrite Hs, map_app. simpl.
    rewrite last_snoc. repeat split; [|exact Href].
    rewrite <- Hid. apply render_shape_fields.
Qed.

Lemma created_shape_holds_ref_witness :
  map Element.ref (render two_rects) = [false; true].
Proof.
  destruct (created_shape_holds_ref after_create
              (Point.mk 20%float 20%float) "b") as [H _].
  - discriminate.
  - apply (bool_decide_unpack _). vm_compute. exact I.
  - reflexivity.
Defined.

(** An update by id is an update in place when the ids are distinct. *)
Lemma map_update_insert (c : Collection) (i : nat) (s : Shape.t)
    (f : Shape.t -> Shape.t) :
  NoDup (ids c) -> c !! i = Some s ->
  map (fun s' => if String.eqb (Shape.id s') (Shape.id s) then f s' else s') c
  = <[i := f s]> c.
Proof.
  revert i. induction c as [|a c IH]; intros i Hnd Hi; [done|].
  apply NoDup_cons in Hnd as [Ha Hnd]. destruct i as [|i]; simpl in *.
  - assert (a = s) as -> by congruence. rewrite String.eqb_refl. f_equal.
    apply map_id_ext. intros b Hb.
    now rewrite (eqb_absent c (Shape.id s) b Ha Hb).
  - assert (String.eqb (Shape.id a) (Shape.id s) = false) as ->.
    { apply String.eqb_neq. intros E. apply Ha. rewrite E. unfold ids.
      apply list_elem_of_fmap. exists s. split; [done|].
      apply list_elem_of_lookup. eauto. }
    f_equal. now apply IH.
Qed.

(** X15: when the ids are distinct, the drag handler and the transform
    handler of the element at position [i] replace the shape at position [i]
    by the shape with the handler's patch spread over it, and change no other
    position; a [Line] element has no transform handler, and a drag handler
    that throws changes nothing. *)
Theorem element_handlers_update_own_shape (st : State) (i : nat) (el : Element.t)
    (node : Node.t) :
  NoDup (ids (shapes st)) -> render st !! i = Some el ->
  (forall p, drag_patch_of (Element.props el) node = Some p ->
     shapes (dispatch (Element.onDragEnd el node) st)
     = <[i := spread (Element.props el) p]> (shapes st)) /\
  (drag_patch_of (Element.props el) node = None ->
     dispatch (Element.onDragEnd el node) st = st) /\
  (forall h, Element.onTransformEnd el = Some h ->
     exists p, transform_patch_of (Element.props el) node = Some p /\
       shapes (dispatch (h node) st) = <[i := spread (Element.props el) p]> (shapes st)).
Proof.
  intros Hnd Hel. destruct (render_lookup st i el Hel) as (s & Hs & ->).
  assert (forall p, shapes (dispatch (updateShape (Shape.id s) p) st)
                    = <[i := spread s p]> (shapes st)) as Hup.
  { intros p. destruct (updateShape_spec st (Shape.id s) p) as (Hu & _).
    unfold step, handler in Hu. rewrite Hu.
    now apply (map_update_insert (shapes st) i s (fun s' => spread s' p)). }
  unfold render_shape, drag_patch_of, transform_patch_of.
  destruct (Shape.type s) eqn:Et; simpl; rewrite ?Et.
  - split; [|split].
    + intros p [= <-]. apply Hup.
    + discriminate.
    + intros h [= <-]. eexists. split; [reflexivity|apply Hup].
  - split; [|split].
    + intros p [= <-]. apply Hup.
    + discriminate.
    + intros h [= <-]. eexists. split; [reflexivity|apply Hup].
  - split; [|split].
    + intros p Hp. unfold Line_onDragEnd. rewrite Hp. apply Hup.
    + intros Hp. unfold Line_onDragEnd. now rewrite Hp.
    + discriminate.
Qed.

Lemma element_handlers_update_own_shape_witness :
  map Shape.x
    (shapes (dispatch (Rect_onDragEnd (rect_at initial "b" (Point.mk 20%float 20%float))
                         (Node.mk 7%float 8%float 100%float 60%float 1%float 1%float))
                      two_rects))
  = [Some 10%float; Some 7%float].
Proof.
  assert (NoDup (ids (shapes two_rects))) as Hnd.
  { apply (bool_decide_unpack _). vm_compute. exact I. }
  destruct (element_handlers_update_own_shape two_rects 1
              (render_shape two_rects (rect_at initial "b" (Point.mk 20%float 20%float)))
              (Node.mk 7%float 8%float 100%float 60%float 1%float 1%float)
              Hnd eq_refl) as (Hd & _).
  pose proof (Hd _ eq_refl) as H.
  apply (f_equal (map Shape.x)) in H. exact H.
Defined.

(** X16: when the ids are distinct, a click on the element at position [i]
    stores its key in [selectedId], sets the [isSelected] flag at position
    [i] and clears it at every other position, touches neither history stack,
    and in the next render [selectedShapeRef] goes to position [i] alone, and
    to no element at all if that element is a [Line]. *)
Theorem element_click_selects_own (st : State) (i : nat) (el : Element.t) :
  NoDup (ids (shapes st)) -> render st !! i = Some el ->
  selectedId (dispatch (Element.onClick el) st) = Some (Element.key el) /\
  (forall j s, shapes st !! j = Some s ->
     shapes (dispatch (Element.onClick el) st) !! j
     = Some (with_isSelected (bool_decide (j = i)) s)) /\
  history (dispatch (Element.onClick el) st) = history st /\
  redoStack (dispatch (Element.onClick el) st) = redoStack st /\
  (forall j el', render (dispatch (Element.onClick el) st) !! j = Some el' ->
     Element.ref el' = true <-> j = i /\ Element.tag el <> Line).
Proof.
  intros Hnd Hel. destruct (render_lookup st i el Hel) as (s & Hs & ->).
  destruct (render_shape_fields st s) as (Hk & _ & Hc & Ht & _).
  rewrite Hc, Hk, Ht.
  destruct (handleSelect_spec st (Shape.id s)) as (Hsh & Hsel & Hh & Hr).
  change (step (Click (Shape.id s)) st)
    with (dispatch (handleSelect (Shape.id s)) st) in *.
  set (st' := dispatch (handleSelect (Shape.id s)) st) in *.
  assert (forall j s0, shapes st !! j = Some s0 ->
            String.eqb (Shape.id s0) (Shape.id s) = bool_decide (j = i)) as Heq.
  { intros j s0 Hj. destruct (decide (j = i)) as [->|Hne].
    - assert (s0 = s) as -> by congruence.
      rewrite String.eqb_refl. symmetry. now apply bool_decide_eq_true.
    - rewrite (bool_decide_eq_false_2 _ Hne). apply String.eqb_neq. intros E.
      apply Hne. apply (NoDup_lookup (ids (shapes st)) j i (Shape.id s)); [done| |].
      + unfold ids. now rewrite list_lookup_fmap, Hj, <- E.
      + unfold ids. now rewrite list_lookup_fmap, Hs. }
  assert (forall j s0, shapes st !! j = Some s0 ->
            shapes st' !! j = Some (with_isSelected (bool_decide (j = i)) s0)) as Hflag.
  { intros j s0 Hj. rewrite Hsh, list_lookup_fmap, Hj. simpl.
    now rewrite (Heq j s0 Hj). }
  split; [exact Hsel|]. split; [exact Hflag|]. split; [exact Hh|]. split; [exact Hr|].
  intros j el' Hj. destruct (render_lookup st' j el' Hj) as (s1 & Hs1 & ->).
  rewrite Hsh, list_lookup_fmap in Hs1.
  destruct (shapes st !! j) as [s0|] eqn:Hj0; [|discriminate Hs1].
  simpl in Hs1. injection Hs1 as <-.
  destruct (render_shape_fields st' (with_isSelected (String.eqb (Shape.id s0) (Shape.id s)) s0))
    as (_ & _ & _ & _ & ->).
  rewrite Hsel. simpl.
  change (Shape.id (with_isSelected (String.eqb (Shape.id s0) (Shape.id s)) s0))
    with (Shape.id s0).
  change (Shape.type (with_isSelected (String.eqb (Shape.id s0) (Shape.id s)) s0))
    with (Shape.type s0).
  rewrite (Heq j s0 Hj0).
  destruct (decide (j = i)) as [->|Hne].
  - assert (s0 = s) as -> by congruence.
    rewrite (bool_decide_eq_true_2 _ eq_refl).
    destruct (Shape.type s); split; try done; intros [_ H]; done.
  - rewrite (bool_decide_eq_false_2 _ Hne).
    destruct (Shape.type s0); split; try done; intros [H _]; done.
Qed.

Lemma element_click_selects_own_witness :
  selectedId (dispatch (handleSelect "b") two_rects) = Some "b" /\
  shapes (dispatch (handleSelect "b") two_rects) !! 1
  = Some (with_isSelected true (rect_at initial "b" (Point.mk 20%float 20%float))).
Proof.
  assert (NoDup (ids (shapes two_rects))) as Hnd.
  { apply (bool_decide_unpack _). vm_compute. exact I. }
  destruct (element_click_selects_own two_rects 1
              (render_shape two_rects (rect_at initial "b" (Point.mk 20%float 20%float)))
              Hnd eq_refl) as (Hsel & Hf & _).
  split; [exact Hsel|exact (Hf 1 _ eq_refl)].
Defined.

(** ** The store and the values *)

(** X17: run on a store in which arrays and objects have identity and the
    history holds references, every handler computes what it computes on
    collections as values: a step in a well-formed store leaves it well
    formed, only adds to it, and denotes the step on values; so every state
    reached from the initial store denotes the state reached on values. *)
Theorem store_refines_values :
  (forall e h, Heap.wf h ->
     Heap.wf (Heap.hstep e h) /\
     Heap.extends (Heap.sigma h) (Heap.sigma (Heap.hstep e h)) /\
     Heap.abs (Heap.hstep e h) = step e (Heap.abs h)) /\
  (forall es,
     Heap.wf (Heap.hrun es Heap.hinitial) /\
     Heap.abs (Heap.hrun es Heap.hinitial) = run es initial).
Proof.
  split.
  - intros e h Hwf. destruct (hstep_refines e h Hwf) as [Hw Ha].
    split; [exact Hw|]. split; [apply hstep_extends|exact Ha].
  - intros es. apply (hrun_refines es Heap.hinitial hinitial_wf).
Qed.

Lemma store_refines_values_witness :
  Heap.abs (Heap.hstep drag_a Heap.hinitial) = step drag_a initial.
Proof.
  destruct store_refines_values as [H _].
  apply (H drag_a Heap.hinitial).
  split; [|split; constructor].
  exists []. split; [reflexivity|constructor].
Defined.

(** ** Sharing in the store *)

Lemma hstep_push_fresh (e : Event) (h : Heap.HState) :
  Heap.is_edit e = true ->
  history (Heap.cells (Heap.hstep e h))
  = history (Heap.cells h) ++ [shapes (Heap.cells h)] ->
  shapes (Heap.cells (Heap.hstep e h)) = length (Heap.arrs (Heap.sigma h)).
Proof.
  assert (forall (l : list nat) a, l <> l ++ [a]) as Hneq.
  { intros l a H. apply (f_equal length) in H. rewrite length_app in H. simpl in H. lia. }
  destruct e; try discriminate; intros _;
    unfold Heap.hstep, Heap.hdispatch; simpl; intros Hh;
    try (now apply Hneq in Hh).
  - revert Hh. unfold Heap.createShape.
    destruct pointer as [P|]; [|intros Hh; now apply Hneq in Hh].
    destruct (decide (drawingType (Heap.cells h) = line)).
    + destruct (lineStart (Heap.cells h)) as [S0|];
        [reflexivity|intros Hh; now apply Hneq in Hh].
    + reflexivity.
  - revert Hh. unfold Heap.handleSelect, Heap.hseq.
    rewrite setShapes_m_eq. simpl. intros Hh. now apply Hneq in Hh.
  - unfold Heap.updateShape, Heap.hseq. rewrite setShapes_m_eq. simpl.
    rewrite array_map_eq. simpl. apply f_equal. apply map_elems_extends.
Qed.

(** X18: a mutating event puts the new collection into a newly allocated
    array and leaves the old array, with its elements, where it was; the undo
    that follows makes the old array itself, not a copy of it, the live
    collection again. *)
Theorem undo_restores_reference (h : Heap.HState) (e : Event) :
  Heap.wf h -> mutating (Heap.abs h) e ->
  shapes (Heap.cells (Heap.hstep e h)) = length (Heap.arrs (Heap.sigma h)) /\
  shapes (Heap.cells (Heap.hstep e h)) <> shapes (Heap.cells h) /\
  Heap.read_arr (Heap.sigma (Heap.hstep e h)) (shapes (Heap.cells h))
  = Heap.read_arr (Heap.sigma h) (shapes (Heap.cells h)) /\
  shapes (Heap.cells (Heap.hstep Undo (Heap.hstep e h))) = shapes (Heap.cells h).
Proof.
  intros Hwf Hm.
  pose proof (hstep_mutating e h Hwf Hm) as Hpush.
  assert (Heap.is_edit e = true) as He by now destruct e.
  pose proof (hstep_push_fresh e h He Hpush) as Hfresh.
  split; [exact Hfresh|]. split; [|split].
  - rewrite Hfresh. destruct Hwf as ((l & Hl & _) & _).
    apply lookup_lt_Some in Hl. lia.
  - destruct Hwf as (Hs & _).
    apply (extends_arr_ok _ _ _ (hstep_extends e h) Hs).
  - change (Heap.cells (Heap.hstep Undo (Heap.hstep e h)))
      with (dispatch undoLast (Heap.cells (Heap.hstep e h))).
    now rewrite (undoLast_snoc _ _ _ Hpush).
Qed.

Lemma undo_restores_reference_witness :
  shapes (Heap.cells (Heap.hstep Undo (Heap.hstep drag_a one_rect)))
  = shapes (Heap.cells one_rect).
Proof.
  apply (undo_restores_reference one_rect drag_a).
  - split; [|split].
    + exists [0]. split; [reflexivity|]. repeat constructor.
    + repeat constructor. exists []. split; [reflexivity|constructor].
    + constructor.
  - exact I.
Defined.

Lemma map_elems_lookup (f : Shape.t -> option Shape.t) (l : list Heap.loc)
    (σ : Heap.store) (j : nat) (o : Heap.loc) :
  Forall (fun o => o < length (Heap.objs σ)) l -> l !! j = Some o ->
  (f (Heap.read_obj σ o) = None -> (Heap.map_elems f l σ).1 !! j = Some o) /\
  (forall s', f (Heap.read_obj σ o) = Some s' ->
     exists o', (Heap.map_elems f l σ).1 !! j = Some o' /\
       length (Heap.objs σ) <= o' /\
       Heap.read_obj (Heap.map_elems f l σ).2 o' = s').
Proof.
  revert σ j. induction l as [|a l IH]; intros σ j Hl Hj; [done|].
  inversion Hl as [|? ? Ha Hl']; subst.
  rewrite map_elems_cons. cbv zeta.
  set (r := match f (Heap.read_obj σ a) with
            | Some s' => Heap.alloc_obj s' σ
            | None => (a, σ)
            end).
  assert (Heap.extends σ r.2) as Hext.
  { unfold r. destruct (f (Heap.read_obj σ a));
      [apply alloc_obj_extends|apply extends_refl]. }
  destruct (map_elems_extends f l r.2) as [Hext2 _].
  destruct j as [|j]; simpl in Hj.
  - assert (a = o) as -> by congruence. simpl. split.
    + intros Hf. unfold r. now rewrite Hf.
    + intros s' Hf. unfold r in *. rewrite Hf in *.
      exists (Heap.alloc_obj s' σ).1. split; [reflexivity|]. split; [simpl; lia|].
      destruct (alloc_obj_spec s' σ) as [Hlt Hrd].
      etransitivity; [|exact Hrd].
      apply extends_read_obj; [exact Hext2|exact Hlt].
  - assert (o < length (Heap.objs σ)) as Ho.
    { apply (Forall_lookup_1 _ _ _ _ Hl' Hj). }
    assert (Forall (fun o => o < length (Heap.objs r.2)) l) as Hl2.
    { eapply Forall_lt_mono; [|exact Hl']. now apply extends_objs_length. }
    destruct (IH r.2 j Hl2 Hj) as [IHn IHs].
    rewrite (extends_read_obj _ _ _ Hext Ho) in IHn, IHs. simpl. split.
    + exact IHn.
    + intros s' Hf. destruct (IHs s' Hf) as (o' & Ho' & Hge & Hrd).
      exists o'. split; [exact Ho'|]. split; [|exact Hrd].
      pose proof (extends_objs_length _ _ Hext). lia.
Qed.

Lemma set_map_read_arr (f : Shape.t -> option Shape.t) (h : Heap.HState) :
  Heap.read_arr (Heap.sigma (Heap.setShapes_m (Heap.array_map f) h))
                (shapes (Heap.cells (Heap.setShapes_m (Heap.array_map f) h)))
  = (Heap.map_elems f (Heap.read_arr (Heap.sigma h) (shapes (Heap.cells h)))
                    (Heap.sigma h)).1 /\
  Heap.sigma (Heap.setShapes_m (Heap.array_map f) h)
  = (Heap.alloc_arr
       (Heap.map_elems f (Heap.read_arr (Heap.sigma h) (shapes (Heap.cells h)))
                       (Heap.sigma h)).1
       (Heap.map_elems f (Heap.read_arr (Heap.sigma h) (shapes (Heap.cells h)))
                       (Heap.sigma h)).2).2.
Proof.
  rewrite setShapes_m_eq, array_map_eq. split; [|reflexivity].
  unfold Heap.read_arr. cbn [Heap.sigma Heap.cells shapes setShapes setShapes_fn].
  now rewrite read_arr_alloc.
Qed.

(** X19: in the array that a geometry update builds, every position whose
    shape has another id holds the very object that the old array holds
    there, and every position whose shape has the id holds a newly allocated
    object, the old shape with the patch spread over it; in the array that a
    selection builds, every position holds a newly allocated object. *)
Theorem map_sharing (h : Heap.HState) (id : string) (p : Partial.t) (j : nat)
    (o : Heap.loc) :
  Heap.wf h ->
  Heap.read_arr (Heap.sigma h) (shapes (Heap.cells h)) !! j = Some o ->
  let hu := Heap.hstep (UpdateShape id p) h in
  let hs := Heap.hstep (Click id) h in
  (Shape.id (Heap.read_obj (Heap.sigma h) o) <> id ->
     Heap.read_arr (Heap.sigma hu) (shapes (Heap.cells hu)) !! j = Some o) /\
  (Shape.id (Heap.read_obj (Heap.sigma h) o) = id ->
     exists o', Heap.read_arr (Heap.sigma hu) (shapes (Heap.cells hu)) !! j = Some o' /\
       length (Heap.objs (Heap.sigma h)) <= o' /\
       Heap.read_obj (Heap.sigma hu) o' = spread (Heap.read_obj (Heap.sigma h) o) p) /\
  (exists o', Heap.read_arr (Heap.sigma hs) (shapes (Heap.cells hs)) !! j = Some o' /\
     length (Heap.objs (Heap.sigma h)) <= o' /\
     Heap.read_obj (Heap.sigma hs) o'
     = with_isSelected (String.eqb (Shape.id (Heap.read_obj (Heap.sigma h) o)) id)
                       (Heap.read_obj (Heap.sigma h) o)).
Proof.
  intros Hwf Hj hu hs.
  assert (Forall (fun o => o < length (Heap.objs (Heap.sigma h)))
                 (Heap.read_arr (Heap.sigma h) (shapes (Heap.cells h)))) as Hall.
  { destruct Hwf as ((l & Hl & Hall) & _). unfold Heap.read_arr. now rewrite Hl. }
  set (fu := fun shape : Shape.t =>
               if String.eqb (Shape.id shape) id then Some (spread shape p) else None).
  set (fs := fun shape : Shape.t =>
               Some (with_isSelected (String.eqb (Shape.id shape) id) shape)).
  destruct (set_map_read_arr fu (Heap.lift (pushToHistory (Heap.cells h)) h)) as [Hru Hsu].
  destruct (set_map_read_arr fs (Heap.lift (setSelectedId (Some id)) h)) as [Hrs Hss].
  change (Heap.setShapes_m (Heap.array_map fu) (Heap.lift (pushToHistory (Heap.cells h)) h))
    with hu in Hru, Hsu.
  change (Heap.setShapes_m (Heap.array_map fs) (Heap.lift (setSelectedId (Some id)) h))
    with hs in Hrs, Hss.
  cbn [Heap.lift Heap.sigma Heap.cells shapes pushToHistory and_then setHistory_fn
       setRedoStack setRedoStack_fn setSelectedId setSelectedId_fn] in Hru, Hsu, Hrs, Hss.
  destruct (map_elems_lookup fu _ (Heap.sigma h) j o Hall Hj) as [Hun Hus].
  destruct (map_elems_lookup fs _ (Heap.sigma h) j o Hall Hj) as [_ Hsel].
  split; [|split].
  - intros Hne. rewrite Hru. apply Hun. unfold fu.
    apply String.eqb_neq in Hne. now rewrite Hne.
  - intros Heq. destruct (Hus (spread (Heap.read_obj (Heap.sigma h) o) p))
      as (o' & Ho' & Hge & Hrd).
    { unfold fu. apply String.eqb_eq in Heq. now rewrite Heq. }
    exists o'. rewrite Hru, Hsu. now repeat split.
  - destruct (Hsel _ eq_refl) as (o' & Ho' & Hge & Hrd).
    exists o'. rewrite Hrs, Hss. now repeat split.
Qed.

Lemma map_sharing_witness :
  Heap.read_arr (Heap.sigma (Heap.hstep (UpdateShape "zz" Partial.empty) one_rect))
                (shapes (Heap.cells (Heap.hstep (UpdateShape "zz" Partial.empty) one_rect)))
  !! 0 = Some 0.
Proof.
  apply (map_sharing one_rect "zz" Partial.empty 0 0).
  - split; [|split].
    + exists [0]. split; [reflexivity|]. repeat constructor.
    + repeat constructor. exists []. split; [reflexivity|constructor].
    + constructor.
  - reflexivity.
  - discriminate.
Defined.

(** ** The component without history *)

Lemma legacy_createShape_selectedId (st : Legacy.LState) pointer uuid :
  Legacy.selectedId (Legacy.dispatch (Legacy.createShape pointer uuid) st)
  = Legacy.selectedId st.
Proof.
  unfold Legacy.dispatch, Legacy.createShape.
  destruct pointer as [P|]; [|done].
  destruct (decide (Legacy.drawingType st = line)); [|done].
  now destruct (Legacy.lineStart st).
Qed.

Lemma legacy_place_all_selectedId ps (st : Legacy.LState) :
  Legacy.selectedId (Legacy.place_all ps st) = Legacy.selectedId st.
Proof.
  revert st. induction ps as [|p ps IH]; intros st; [done|].
  change (Legacy.place_all (p :: ps) st)
    with (Legacy.place_all ps (Legacy.dispatch (Legacy.createShape p.1 p.2) st)).
  rewrite IH. apply legacy_createShape_selectedId.
Qed.

(** X20: in the component without history, [updateShape] does nothing while
    [selectedId] is [null] or the empty string, and placing shapes never
    selects; hence, as long as no shape has been clicked, the drag of any
    shape that was placed leaves the state as it is. *)
Theorem legacy_drag_needs_selection (st : Legacy.LState) (p : Partial.t) :
  Legacy.falsy (Legacy.selectedId st) = true ->
  Legacy.dispatch (Legacy.updateShape p) st = st /\
  (forall ps shape node,
     Legacy.dispatch (Legacy.Rect_onDragEnd shape node) (Legacy.place_all ps st)
     = Legacy.place_all ps st /\
     Legacy.dispatch (Legacy.Circle_onDragEnd shape node) (Legacy.place_all ps st)
     = Legacy.place_all ps st /\
     Legacy.dispatch (Legacy.Line_onDragEnd shape node) (Legacy.place_all ps st)
     = Legacy.place_all ps st).
Proof.
  intros Hf.
  assert (forall st' q, Legacy.falsy (Legacy.selectedId st') = true ->
            Legacy.dispatch (Legacy.updateShape q) st' = st') as Hno.
  { intros st' q H. unfold Legacy.dispatch, Legacy.updateShape. now rewrite H. }
  split; [now apply Hno|].
  intros ps shape node.
  assert (Legacy.falsy (Legacy.selectedId (Legacy.place_all ps st)) = true) as Hf'.
  { now rewrite legacy_place_all_selectedId. }
  split; [now apply Hno|]. split; [now apply Hno|].
  unfold Legacy.Line_onDragEnd.
  destruct (Line_drag_patch shape node); [now apply Hno|done].
Qed.

Lemma legacy_drag_needs_selection_witness :
  Legacy.shapes
    (Legacy.dispatch
       (Legacy.Rect_onDragEnd (rect_at initial "a" (Point.mk 10%float 10%float))
                              (Node.mk 7%float 8%float 100%float 60%float 1%float 1%float))
       (Legacy.place_all [(Some (Point.mk 10%float 10%float), "a")] Legacy.initial))
  = [rect_at initial "a" (Point.mk 10%float 10%float)].
Proof.
  destruct (legacy_drag_needs_selection Legacy.initial Partial.empty eq_refl) as [_ H].
  destruct (H [(Some (Point.mk 10%float 10%float), "a")]
              (rect_at initial "a" (Point.mk 10%float 10%float))
              (Node.mk 7%float 8%float 100%float 60%float 1%float 1%float)) as [Hr _].
  now rewrite Hr.
Defined.

(** X21: in the component without history, the drag handler of a rectangle
    or circle does not depend on the shape it is attached to: with the id [i]
    selected, it moves the shapes with id [i] to the reported position and
    leaves every other shape, the dragged one included, where it is. *)
Theorem legacy_drag_moves_selected (st : Legacy.LState) (i : string)
    (shape : Shape.t) (node : Node.t) :
  Legacy.selectedId st = Some i -> i <> "" ->
  Legacy.shapes (Legacy.dispatch (Legacy.Rect_onDragEnd shape node) st)
  = map (fun s => if String.eqb (Shape.id s) i then spread s (drag_patch node) else s)
        (Legacy.shapes st) /\
  Legacy.dispatch (Legacy.Circle_onDragEnd shape node) st
  = Legacy.dispatch (Legacy.Rect_onDragEnd shape node) st /\
  (forall j s, Legacy.shapes st !! j = Some s -> Shape.id s <> i ->
     Legacy.shapes (Legacy.dispatch (Legacy.Rect_onDragEnd shape node) st) !! j = Some s) /\
  (Shape.id shape <> i -> forall j, Legacy.shapes st !! j = Some shape ->
     Legacy.shapes (Legacy.dispatch (Legacy.Rect_onDragEnd shape node) st) !! j
     = Some shape).
Proof.
  intros Hsel Hne.
  assert (Legacy.shapes (Legacy.dispatch (Legacy.Rect_onDragEnd shape node) st)
          = map (fun s => if String.eqb (Shape.id s) i
                          then spread s (drag_patch node) else s)
                (Legacy.shapes st)) as Hs.
  { unfold Legacy.dispatch, Legacy.Rect_onDragEnd, Legacy.updateShape.
    rewrite Hsel. simpl. apply String.eqb_neq in Hne. now rewrite Hne. }
  assert (forall j s, Legacy.shapes st !! j = Some s -> Shape.id s <> i ->
            Legacy.shapes (Legacy.dispatch (Legacy.Rect_onDragEnd shape node) st) !! j
            = Some s) as Hother.
  { intros j s Hj Hid. rewrite Hs, list_lookup_fmap, Hj. simpl.
    apply String.eqb_neq in Hid. now rewrite Hid. }
  split; [exact Hs|]. split; [reflexivity|]. split; [exact Hother|].
  intros Hid j Hj. now apply Hother.
Qed.

Lemma legacy_drag_moves_selected_witness :
  map Shape.x
    (Legacy.shapes
       (Legacy.dispatch
          (Legacy.Rect_onDragEnd (rect_at initial "b" (Point.mk 20%float 20%float))
                                 (Node.mk 7%float 8%float 100%float 60%float 1%float 1%float))
          (Legacy.dispatch (Legacy.handleSelect "a")
             (Legacy.place_all [(Some (Point.mk 10%float 10%float), "a");
                                (Some (Point.mk 20%float 20%float), "b")]
                               Legacy.initial))))
  = [Some 7%float; Some 20%float].
Proof.
  destruct (legacy_drag_moves_selected
              (Legacy.dispatch (Legacy.handleSelect "a")
                 (Legacy.place_all [(Some (Point.mk 10%float 10%float), "a");
                                    (Some (Point.mk 20%float 20%float), "b")]
                                   Legacy.initial))
              "a" (rect_at initial "b" (Point.mk 20%float 20%float))
              (Node.mk 7%float 8%float 100%float 60%float 1%float 1%float)
              eq_refl) as (Hs & _).
  - discriminate.
  - rewrite Hs. reflexivity.
Defined.
